(** * ol-load-geopackage: a shallow embedding of the loader and its contract

    The module under study (the [ol-load-geopackage] entry point) loads an
    OGC GeoPackage into OpenLayers vector sources.  It has five functions:
    [initSqlJsWasm], [loadGpkg], [readRawGpkg], [processGpkgData] and
    [parseGpkgGeom]; one module-level variable, [promiseSqlWasmLoaded]; and
    four collaborators it does not define: the sql.js engine, the browser's
    [fetch], the OpenLayers projection registry and the OpenLayers WKB
    reader.

    Modelling choices.
    - JavaScript values that reach the loader are the values sql.js hands
      out (numbers, strings, byte arrays, null) plus [undefined]: [jsval].
    - A [Uint8Array] is a [list byte]; indexing out of range is [None]
      ([undefined] in JavaScript).
    - Plain objects used as dictionaries are [gmap string _]; keys are
      assumed to be ordinary property names.
    - A promise is represented by its state at the instant of observation:
      [Pending], [Fulfilled] or [Rejected].
    - Exceptions are values of [error], one constructor per [throw] site of
      the source plus the run-time [TypeError]s and the failures raised by
      the collaborators.  [message] renders the text the source builds.
    - Effects are threaded through a state-and-exception monad [M] over
      [world], which holds the module variable, the promise sql.js keeps
      from its first call, and the log of calls made to the
      collaborators. *)

From Stdlib Require Import ZArith Lia.
From Stdlib.Strings Require Import Byte.
From stdpp Require Import base strings gmap list pretty.

Open Scope Z_scope.

(** ** JavaScript values *)

Inductive jsval :=
| JUndefined
| JNull
| JNumber (n : Z)            (* a number read from an integer column *)
| JReal (shown : string)     (* any other number, known by its string form *)
| JString (s : string)
| JBytes (b : list byte).    (* Uint8Array *)

Definition byte_to_Z (b : byte) : Z := Z.of_N (Byte.to_N b).

Definition nl : string := String (Ascii.ascii_of_nat 10) EmptyString.

(** The double quote character, as a string. *)
Definition dq : string := String (Ascii.ascii_of_nat 34) EmptyString.

Fixpoint join (sep : string) (l : list string) : string :=
  match l with
  | [] => ""
  | [s] => s
  | s :: rest => s +:+ sep +:+ join sep rest
  end.

(** *** Number::toString

    A JavaScript number is a double.  An integer below 2^53 in magnitude is
    a double and prints with all its digits.  A larger one is first rounded
    to the nearest double (ties to the even mantissa); the digits printed
    are the fewest that read back as that double, padded with zeros below
    10^21 and in exponent form from 10^21 on. *)

(** The double nearest to [a], for [2^53 <= a], as mantissa and exponent:
    the value is [m * 2^e] with [2^52 <= m < 2^53]. *)
Definition nearest_double (a : Z) : Z * Z :=
  let e := Z.log2 a - 52 in
  let q := a / 2 ^ e in
  let r := a mod 2 ^ e in
  let half := 2 ^ (e - 1) in
  let m :=
    if r <? half then q
    else if half <? r then q + 1
    else if Z.even q then q else q + 1 in
  if m =? 2 ^ 53 then (2 ^ 52, e + 1) else (m, e).

(** The decimal with the fewest significant digits that rounds to the
    double [d]; [below4] and [above4] are four times the distance from [d]
    to the ends of its rounding interval, which are included when the
    mantissa is even.  [p] is the weight of the last digit kept.  Of two
    candidates the closer one is taken, the even one on a tie. *)
Fixpoint shortest_decimal (fuel : nat) (d below4 above4 : Z)
    (inclusive : bool) (p : Z) : Z :=
  let c1 := d / p * p in
  let c2 := c1 + p in
  let fits (c : Z) :=
    let gap := if c <? d then below4 else above4 in
    if inclusive then 4 * Z.abs (c - d) <=? gap
    else 4 * Z.abs (c - d) <? gap in
  match fits c1, fits c2 with
  | true, true =>
      if d - c1 <? c2 - d then c1
      else if c2 - d <? d - c1 then c2
      else if Z.even (c1 / p) then c1 else c2
  | true, false => c1
  | false, true => c2
  | false, false =>
      match fuel with
      | O => d
      | S fuel' => shortest_decimal fuel' d below4 above4 inclusive (p / 10)
      end
  end.

Fixpoint strip_zeros (fuel : nat) (c : Z) : Z :=
  match fuel with
  | O => c
  | S fuel' => if c mod 10 =? 0 then strip_zeros fuel' (c / 10) else c
  end.

(** [d.ddde+x], or [de+x] for a single significant digit. *)
Definition exponent_form (c : Z) : string :=
  let digits := pretty c in
  let x := Z.of_nat (String.length digits) - 1 in
  match pretty (strip_zeros (String.length digits) c) with
  | String first EmptyString => String first EmptyString +:+ "e+" +:+ pretty x
  | String first rest => String first ("." +:+ rest) +:+ "e+" +:+ pretty x
  | EmptyString => ""
  end.

Definition large_to_string (a : Z) : string :=
  if 2 ^ 1024 - 2 ^ 970 <=? a then "Infinity"
  else
    let '(m, e) := nearest_double a in
    let d := m * 2 ^ e in
    let digits := String.length (pretty d) in
    let c :=
      shortest_decimal digits d
        (if m =? 2 ^ 52 then 2 ^ e else 2 ^ (e + 1)) (2 ^ (e + 1))
        (Z.even m) (10 ^ (Z.of_nat digits - 1)) in
    if c <? 10 ^ 21 then pretty c else exponent_form c.

Definition number_to_string (n : Z) : string :=
  let a := Z.abs n in
  let shown := if a <? 2 ^ 53 then pretty a else large_to_string a in
  if n <? 0 then "-" +:+ shown else shown.

(** The abstract operation ToString, as used by [+] on strings and by
    property keys. *)
Definition js_to_string (v : jsval) : string :=
  match v with
  | JUndefined => "undefined"
  | JNull => "null"
  | JNumber n => number_to_string n
  | JReal shown => shown
  | JString s => s
  | JBytes b => join "," (pretty <$> (byte_to_Z <$> b))
  end.

(** ** Errors *)

Inductive error :=
| WasmNotInitialized
| UnknownDisplayProjection (displayProjection : string)
| WasmLoadFailed (reason : string)
| SourceUnreachable (input : string) (status : Z) (statusText : string)
| InvalidInputKind
| ReadFailed (cause : string)
| CatalogExtractionFailed (cause : string)
| UnknownSourceProjection (tableDataProjection table_name : string)
| InvalidEnvelopeFlag
| RuntimeTypeError (what : string)   (* raised by the JavaScript run time *)
| External (shown : string).         (* raised or rejected by a collaborator *)

Definition message (e : error) : string :=
  match e with
  | WasmNotInitialized =>
      "SQL WASM loading has not started; " +:+
      "did you forget to run initSqlJsWasm() first?"
  | UnknownDisplayProjection displayProjection =>
      "Missing requested display projection [" +:+
      displayProjection +:+
      "] - can be added beforehand with ol/proj/proj4"
  | WasmLoadFailed reason =>
      "Unable to load SQLite JS binary (sql-wasm.wasm)." +:+ nl +:+ reason
  | SourceUnreachable input status statusText =>
      "GPKG file could not be loaded from URL:" +:+ nl +:+
      "  " +:+ input +:+ nl +:+
      "Response: (" +:+ pretty status +:+ ") " +:+ statusText
  | InvalidInputKind => "Input must be URL string or URL/File/Blob object"
  | ReadFailed cause =>
      "Requested GPKG file could not be loaded." +:+ nl +:+ cause
  | CatalogExtractionFailed cause =>
      "Unable to extract feature tables from OGC GeoPackage file." +:+ nl +:+
      cause
  | UnknownSourceProjection tableDataProjection table_name =>
      "Missing data projection [" +:+
      tableDataProjection +:+ "] for table " +:+ dq +:+ table_name +:+
      dq +:+ " - can be added beforehand with ol/proj/proj4"
  | InvalidEnvelopeFlag => "Invalid geometry envelope size flag in GeoPackage"
  | RuntimeTypeError what => what
  | External shown => shown
  end.

(** What [+] on a string and a caught error produces
    ([Error.prototype.toString]). *)
Definition error_to_string (e : error) : string :=
  match e with
  | InvalidInputKind | RuntimeTypeError _ => "TypeError: " +:+ message e
  | External shown => shown
  | _ => "Error: " +:+ message e
  end.

(** ** Geometry envelope parser *)

(** [TypedArray.prototype.subarray(begin)]: the view from [begin] (counted
    from the end when negative, clamped to the array) to the end. *)
Definition subarray (begin : Z) (a : list byte) : list byte :=
  let len := Z.of_nat (length a) in
  let from := if begin <? 0 then Z.max (len + begin) 0 else Z.min begin len in
  drop (Z.to_nat from) a.

(** ToInt32 of the element read at an index: a byte is its own value,
    [undefined] (index out of range) converts to NaN and then to 0. *)
Definition to_int32 (v : option byte) : Z :=
  match v with
  | Some b => byte_to_Z b
  | None => 0
  end.

Definition flags_of (gpkgBinGeom : list byte) : option byte :=
  gpkgBinGeom !! 3%nat.

Definition eFlags_of (gpkgBinGeom : list byte) : Z :=
  Z.land (Z.shiftr (to_int32 (flags_of gpkgBinGeom)) 1) 7.

(** The [switch]: [None] is the [default] branch, which throws. *)
Definition envelopeSize (eFlags : Z) : option Z :=
  match eFlags with
  | 0 => Some 0
  | 1 => Some 32
  | 2 | 3 => Some 48
  | 4 => Some 64
  | _ => None
  end.

Definition wkbOffset (eFlags : Z) : option Z :=
  match envelopeSize eFlags with
  | Some size => Some (size + 8)
  | None => None
  end.

(** [parseGpkgGeom] on the values it can be handed.  On [undefined] and
    [null] the read of index 3 throws.  On a number the read gives
    [undefined], the switch takes case 0 and the call of [subarray] throws.
    On a string the character read converts to a number between 0 and 9 (or
    to NaN), so the flag field is at most 4 and again the call of
    [subarray] throws. *)
Definition parseGpkgGeom (gpkgBinGeom : jsval) : error + list byte :=
  match gpkgBinGeom with
  | JUndefined | JNull =>
      inl (RuntimeTypeError "Cannot read properties of null or undefined")
  | JBytes cell =>
      match wkbOffset (eFlags_of cell) with
      | None => inl InvalidEnvelopeFlag
      | Some offset => inr (subarray offset cell)
      end
  | JNumber _ | JReal _ | JString _ =>
      inl (RuntimeTypeError "gpkgBinGeom.subarray is not a function")
  end.

(** ** Promises *)

Inductive pstate (R A : Type) :=
| Pending
| Fulfilled (value : A)
| Rejected (reason : R).
Arguments Pending {R A}.
Arguments Fulfilled {R A} value.
Arguments Rejected {R A} reason.

(** One entry of the array [Promise.allSettled] resolves to. *)
Inductive settled (R A : Type) :=
| SFulfilled (value : A)
| SRejected (reason : R).
Arguments SFulfilled {R A} value.
Arguments SRejected {R A} reason.

(** [Promise.allSettled([p0, p1])]: pending until both have settled, never
    rejected. *)
Definition allSettled {R0 A0 R1 A1 R : Type}
    (p0 : pstate R0 A0) (p1 : pstate R1 A1)
  : pstate R (settled R0 A0 * settled R1 A1) :=
  match p0, p1 with
  | Pending, _ | _, Pending => Pending
  | Fulfilled a, Fulfilled b => Fulfilled (SFulfilled a, SFulfilled b)
  | Fulfilled a, Rejected r => Fulfilled (SFulfilled a, SRejected r)
  | Rejected r, Fulfilled b => Fulfilled (SRejected r, SFulfilled b)
  | Rejected r, Rejected r' => Fulfilled (SRejected r, SRejected r')
  end.

(** ** The collaborators *)

(** A prepared statement, by what stepping through it yields: its column
    names, the rows in order and, when stepping past the last of them
    throws, the engine's error. *)
Record statement := Statement {
  columns : list string;
  rows : list (list jsval);
  failure : option string
}.

(** [db.prepare(sql)]: the engine's error or the statement. *)
Definition database := string → string + statement.

(** [new sqlWasm.Database(bytes)]. *)
Definition engine := list byte → string + database.

(** A [Blob] or a [Response]: the two ways the loader reads its bytes. *)
Record source := Source {
  has_bytes : bool;                          (* typeof .bytes === 'function' *)
  bytes_method : pstate string (list byte);  (* outcome of .bytes() *)
  arrayBuffer : pstate string (list byte)    (* outcome of .arrayBuffer() *)
}.

Record http_response := Response {
  ok : bool;
  status : Z;
  statusText : string;
  body : source
}.

(** What [loadGpkg] can be called on. *)
Inductive gpkg_source :=
| InBlob (blob : source) (name : option string)  (* a File has a name *)
| InString (url : string)
| InURL (href : string)
| InOther (shown : string).        (* any other value, with its string form *)

Record environment := Environment {
  (* ol/proj get: is a projection registered under this code? *)
  ol_proj_get : string → bool;
  (* initSqlJs when sql.js has not been called before, by the URL its
     locateFile answers for the binary *)
  initSqlJs : string → pstate string engine;
  fetch : string → pstate string http_response;
  (* WKB readFeatures with dataProjection and featureProjection:
     [None] when it decodes one feature, the decoder's error otherwise *)
  readFeatures : list byte → string → string → option string
}.

(** ** The world: module state and the log of calls to collaborators *)

Inductive event :=
| EvInitSqlJs (url : string)
| EvConsoleError (text : string)
| EvProjGet (code : string)
| EvFetch (url : string)
| EvOpen
| EvPrepare (sql : string)
| EvStep (sql : string).

Record world := World {
  promiseSqlWasmLoaded : option (pstate string engine);
  (* sql.js's own module variable: the promise its first call made, which
     it returns again on every later call *)
  initSqlJsPromise : option (pstate string engine);
  log : list event
}.

Definition emit (ev : event) (w : world) : world :=
  {| promiseSqlWasmLoaded := promiseSqlWasmLoaded w;
     initSqlJsPromise := initSqlJsPromise w;
     log := log w ++ [ev] |}.

(** ** State and exceptions *)

Definition M (A : Type) : Type := world → (error + A) * world.

#[export] Instance M_ret : MRet M := λ A a w, (inr a, w).
#[export] Instance M_bind : MBind M := λ A B f m w,
  match m w with
  | (inl e, w') => (inl e, w')
  | (inr a, w') => f a w'
  end.

Definition throw {A : Type} (e : error) : M A := λ w, (inl e, w).

Definition try_catch {A : Type} (m : M A) (handler : error → M A) : M A :=
  λ w, match m w with
       | (inl e, w') => handler e w'
       | (inr a, w') => (inr a, w')
       end.

Definition tell (ev : event) : M unit := λ w, (inr (), emit ev w).

(** Lifting a collaborator's answer. *)
Definition of_external {A : Type} (r : string + A) : M A :=
  match r with
  | inl shown => throw (External shown)
  | inr a => mret a
  end.

Definition of_result {A : Type} (r : error + A) : M A :=
  match r with
  | inl e => throw e
  | inr a => mret a
  end.

(** [promise.then(k)], observed: the callback has run if the promise is
    fulfilled, and a throw in it rejects the derived promise. *)
Definition then_ {A B : Type} (p : pstate error A) (k : A → M B)
  : world → pstate error B * world :=
  λ w, match p with
       | Pending => (Pending, w)
       | Rejected r => (Rejected r, w)
       | Fulfilled a =>
           match k a w with
           | (inl e, w') => (Rejected e, w')
           | (inr b, w') => (Fulfilled b, w')
           end
       end.

Definition async {A : Type} (f : world → pstate error A * world)
  : M (pstate error A) :=
  λ w, let '(p, w') := f w in (inr p, w').

(** ** Rows, features and sources *)

(** [row[i]] *)
Definition at_index (row : list jsval) (i : nat) : jsval :=
  default JUndefined (row !! i).

(** [v.toString()]: a method call, which throws on [undefined] and [null]. *)
Definition toString_method (v : jsval) : error + string :=
  match v with
  | JUndefined | JNull =>
      inl (RuntimeTypeError "Cannot read properties of null or undefined")
  | _ => inr (js_to_string v)
  end.

(** [stmt.getAsObject()] of sql.js: the current row as an object, built by
    assigning the values to the column names from left to right. *)
Fixpoint getAsObject_from (names : list string) (values : list jsval)
    (rowObject : gmap string jsval) : gmap string jsval :=
  match names with
  | [] => rowObject
  | name :: names' =>
      getAsObject_from names' (tail values)
        (<[name := at_index values 0]> rowObject)
  end.

Definition getAsObject (names : list string) (values : list jsval)
  : gmap string jsval :=
  getAsObject_from names values ∅.

(** [properties[key]] *)
Definition get_property (properties : gmap string jsval) (key : string)
  : jsval :=
  default JUndefined (properties !! key).

(** One element of [featureTableNames]. *)
Record descriptor := Descriptor {
  table_name : jsval;
  srs_id : string;
  geometry_column_name : jsval
}.

(** What the WKB reader returns for bytes it decodes, kept symbolic. *)
Record geometry := Geometry {
  wkb : list byte;
  dataProjection : string;
  featureProjection : string
}.

(** What [getGeometry()] answers on a feature: what the reader decoded,
    or the value that a later [set('geometry', v)] put in its place. *)
Inductive geometry_value :=
| Decoded (decoded : geometry)
| Overwritten (v : jsval).

(** A feature: its geometry and the properties set on it. *)
Record feature := Feature {
  feature_geometry : geometry_value;
  feature_properties : gmap string jsval
}.

(** ToBoolean, on the values sql.js hands out. *)
Definition js_truthy (v : jsval) : bool :=
  match v with
  | JUndefined | JNull => false
  | JNumber n => negb (n =? 0)
  | JReal shown => negb (String.eqb shown "NaN")
  | JString s => negb (String.eqb s "")
  | JBytes _ => true
  end.

(** [feature.setProperties(properties)] on a feature just decoded.  An
    OpenLayers feature keeps its geometry under the property [geometry]:
    setting that property replaces the geometry, and the feature then
    subscribes to the changes of the new value when it is truthy, which
    throws on a value that is not an event target. *)
Definition setProperties (decoded : geometry)
    (properties : gmap string jsval) : error + feature :=
  match properties !! "geometry" with
  | None =>
      inr {| feature_geometry := Decoded decoded;
             feature_properties := properties |}
  | Some v =>
      if js_truthy v then
        inl (RuntimeTypeError "target.addEventListener is not a function")
      else
        inr {| feature_geometry := Overwritten v;
               feature_properties := properties |}
  end.

Record ol_source_Vector := VectorSource {
  features : list feature;
  source_properties : gmap string string
}.

(** ** The queries *)

Definition sp4 : string := "    ".
Definition sp8 : string := sp4 +:+ sp4.
Definition sp12 : string := sp8 +:+ sp4.
Definition sp16 : string := sp8 +:+ sp8.

Definition catalog_sql : string :=
  nl +:+
  sp12 +:+ "SELECT gpkg_contents.table_name, gpkg_contents.srs_id," +:+ nl +:+
  sp16 +:+ "gpkg_geometry_columns.column_name" +:+ nl +:+
  sp12 +:+ "FROM gpkg_contents JOIN gpkg_geometry_columns" +:+ nl +:+
  sp12 +:+ "WHERE gpkg_contents.data_type='features' AND" +:+ nl +:+
  sp16 +:+ "gpkg_contents.table_name=gpkg_geometry_columns.table_name;" +:+
  nl +:+ sp8.

Definition probe_sql : string :=
  nl +:+
  sp8 +:+ "SELECT gpkg_contents.table_name" +:+ nl +:+
  sp8 +:+ "FROM gpkg_contents" +:+ nl +:+
  sp8 +:+ "WHERE gpkg_contents.table_name='layer_styles'" +:+ nl +:+
  sp4.

Definition styles_sql : string :=
  "SELECT f_table_name,styleSLD FROM layer_styles".

Definition table_sql (table_name : jsval) : string :=
  "SELECT * FROM '" +:+ js_to_string table_name +:+ "'".

(** [db.prepare(sql)] *)
Definition prepare (db : database) (sql : string) : M statement :=
  tell (EvPrepare sql);; of_external (db sql).

(** [while (stmt.step()) { body }], the body acting on the row just
    stepped to; the step past the last row returns false or throws. *)
Fixpoint while_step {A : Type} (sql : string) (body : list jsval → A → M A)
    (remaining : list (list jsval)) (failure : option string) (acc : A)
  : M A :=
  match remaining with
  | [] =>
      tell (EvStep sql);;
      match failure with
      | None => mret acc
      | Some shown => throw (External shown)
      end
  | row :: rest =>
      tell (EvStep sql);;
      acc' ← body row acc;
      while_step sql body rest failure acc'
  end.

(** A single [stmt.step()]. *)
Definition step_once (sql : string) (stmt : statement) : M bool :=
  tell (EvStep sql);;
  match rows stmt, failure stmt with
  | [], Some shown => throw (External shown)
  | [], None => mret false
  | _ :: _, _ => mret true
  end.

(** ** The module *)

Section Loader.

Variable E : environment.

(** [ol_proj_get(code)], logged. *)
Definition proj_get (code : string) : M bool :=
  tell (EvProjGet code);; mret (ol_proj_get E code).

Definition wasm_file : string := "sql-wasm.wasm".

(** [initSqlJs(config)] as sql.js exports it: the first call starts the
    load from the located URL and keeps its promise; every later call
    returns that promise, whatever it is given. *)
Definition initSqlJs_memoised (located : string) (w : world)
  : pstate string engine :=
  match initSqlJsPromise w with
  | Some first => first
  | None => initSqlJs E located
  end.

(** [initSqlJsWasm(sqlJsWasmDir)]; [None] is a call without the argument.
    The [catch] callback has run when the promise is observed rejected. *)
Definition initSqlJsWasm (sqlJsWasmDir : option string) (w : world)
  : pstate string engine * world :=
  let sqlJsWasmDir := default "" sqlJsWasmDir in
  let located := sqlJsWasmDir +:+ "/" +:+ wasm_file in
  let promise := initSqlJs_memoised located w in
  let w1 := {| promiseSqlWasmLoaded := Some promise;
               initSqlJsPromise := Some promise;
               log := log w ++ [EvInitSqlJs located] |} in
  let w2 :=
    match promise with
    | Rejected error =>
        emit (EvConsoleError
                ("initSqlJsWasm() unable to load SQLite JS binary " +:+
                 "(sql-wasm.wasm) from URL folder:" +:+ nl +:+
                 "  " +:+ sqlJsWasmDir +:+ "/" +:+ nl +:+
                 error)) w1
    | _ => w1
    end in
  (promise, w2).

(** The [try] block at the end of [readRawGpkg]. *)
Definition read_source (gpkgSource : source) : pstate error (list byte) :=
  let reading :=
    if has_bytes gpkgSource then bytes_method gpkgSource
    else arrayBuffer gpkgSource in
  match reading with
  | Pending => Pending
  | Fulfilled bytes => Fulfilled bytes
  | Rejected error => Rejected (ReadFailed error)
  end.

(** [readRawGpkg(input)]: an async function, so every throw is a
    rejection of the promise it returns. *)
Definition readRawGpkg (input : gpkg_source) (w : world)
  : pstate error (list byte) * world :=
  match input with
  | InBlob blob _ => (read_source blob, w)
  | InString url | InURL url =>
      let w' := emit (EvFetch url) w in
      match fetch E url with
      | Pending => (Pending, w')
      | Rejected reason => (Rejected (External reason), w')
      | Fulfilled response =>
          if ok response then (read_source (body response), w')
          else (Rejected (SourceUnreachable url (status response)
                            (statusText response)), w')
      end
  | InOther _ => (Rejected InvalidInputKind, w)
  end.

(** The [try] block of [processGpkgData]: open the database and list the
    feature tables. *)
Definition catalog_row (row : list jsval) (featureTableNames : list descriptor)
  : M (list descriptor) :=
  srs ← of_result (toString_method (at_index row 1));
  mret (featureTableNames ++
        [{| table_name := at_index row 0;
            srs_id := srs;
            geometry_column_name := at_index row 2 |}]).

Definition open_and_list (gpkgByteArray : list byte) (sqlWasm : engine)
  : M (database * list descriptor) :=
  tell EvOpen;;
  db ← of_external (sqlWasm gpkgByteArray);
  stmt ← prepare db catalog_sql;
  featureTableNames ←
    while_step catalog_sql catalog_row (rows stmt) (failure stmt) [];
  mret (db, featureTableNames).

Definition extract_catalog (gpkgByteArray : list byte) (sqlWasm : engine)
  : M (database * list descriptor) :=
  try_catch (open_and_list gpkgByteArray sqlWasm)
    (λ err, throw (CatalogExtractionFailed (error_to_string err))).

(** The styles: probe the contents table, then read [layer_styles]. *)
Definition style_row (row : list jsval) (sldsFromGpkg : gmap string jsval)
  : M (gmap string jsval) :=
  mret (<[js_to_string (at_index row 0) := at_index row 1]> sldsFromGpkg).

Definition extract_styles (db : database) : M (gmap string jsval) :=
  stmt ← prepare db probe_sql;
  found ← step_once probe_sql stmt;
  if found : bool then
    stmt ← prepare db styles_sql;
    while_step styles_sql style_row (rows stmt) (failure stmt) ∅
  else mret ∅.

(** The body of the inner [while]: one row of a feature table. *)
Definition feature_row (names : list string) (table : descriptor)
    (displayProjection : string) (row : list jsval)
    (vectorSource : ol_source_Vector) : M ol_source_Vector :=
  let tableDataProjection := "EPSG:" +:+ srs_id table in
  let key := js_to_string (geometry_column_name table) in
  let properties := getAsObject names row in
  let geomProp := get_property properties key in
  let properties := delete key properties in
  featureWkb ← of_result (parseGpkgGeom geomProp);
  match readFeatures E featureWkb tableDataProjection displayProjection with
  | Some shown => throw (External shown)
  | None =>
      feature ←
        of_result
          (setProperties
             {| wkb := featureWkb;
                dataProjection := tableDataProjection;
                featureProjection := displayProjection |}
             properties);
      mret {| features := features vectorSource ++ [feature];
              source_properties := source_properties vectorSource |}
  end.

(** The body of the [for] loop: one feature table. *)
Definition process_table (db : database) (displayProjection : string)
    (table : descriptor) (dataFromGpkg : gmap string ol_source_Vector)
  : M (gmap string ol_source_Vector) :=
  let tableDataProjection := "EPSG:" +:+ srs_id table in
  registered ← proj_get tableDataProjection;
  if negb registered then
    throw (UnknownSourceProjection tableDataProjection
             (js_to_string (table_name table)))
  else
    stmt ← prepare db (table_sql (table_name table));
    vectorSource ←
      while_step (table_sql (table_name table))
        (feature_row (columns stmt) table displayProjection)
        (rows stmt) (failure stmt)
        {| features := []; source_properties := ∅ |};
    let vectorSource :=
      {| features := features vectorSource;
         source_properties :=
           <["origProjection" := tableDataProjection]>
             (source_properties vectorSource) |} in
    mret (<[js_to_string (table_name table) := vectorSource]> dataFromGpkg).

Fixpoint process_tables (db : database) (displayProjection : string)
    (featureTableNames : list descriptor)
    (dataFromGpkg : gmap string ol_source_Vector)
  : M (gmap string ol_source_Vector) :=
  match featureTableNames with
  | [] => mret dataFromGpkg
  | table :: rest =>
      dataFromGpkg ← process_table db displayProjection table dataFromGpkg;
      process_tables db displayProjection rest dataFromGpkg
  end.

Definition processGpkgData (loadedGpkgFile : string)
    (gpkgByteArray : list byte) (sqlWasm : engine)
    (displayProjection : string)
  : M (gmap string ol_source_Vector * gmap string jsval) :=
  '(db, featureTableNames) ← extract_catalog gpkgByteArray sqlWasm;
  sldsFromGpkg ← extract_styles db;
  dataFromGpkg ← process_tables db displayProjection featureTableNames ∅;
  mret (dataFromGpkg, sldsFromGpkg).

(** [(gpkgFile instanceof File) ? gpkgFile.name : gpkgFile.toString()] *)
Definition gpkgFileName (gpkgFile : gpkg_source) : string :=
  match gpkgFile with
  | InBlob _ (Some name) => name
  | InBlob _ None => "[object Blob]"
  | InString url => url
  | InURL href => href
  | InOther shown => shown
  end.

(** The callback given to [then] in [loadGpkg]. *)
Definition on_settled (gpkgFile : gpkg_source) (displayProjection : string)
    (results : settled string engine * settled error (list byte))
  : M (gmap string ol_source_Vector * gmap string jsval) :=
  match results with
  | (SRejected reason, _) => throw (WasmLoadFailed reason)
  | (SFulfilled _, SRejected reason) => throw reason
  | (SFulfilled sqlWasm, SFulfilled gpkgByteArray) =>
      processGpkgData (gpkgFileName gpkgFile) gpkgByteArray sqlWasm
        displayProjection
  end.

(** [loadGpkg(gpkgFile, displayProjection)]: [inl] is an exception thrown
    by the call itself, [inr] the promise it returns. *)
Definition loadGpkg (gpkgFile : gpkg_source) (displayProjection : string)
  : M (pstate error (gmap string ol_source_Vector * gmap string jsval)) :=
  λ w,
    match promiseSqlWasmLoaded w with
    | None => throw WasmNotInitialized w
    | Some promise =>
        (registered ← proj_get displayProjection;
         if negb registered then
           throw (UnknownDisplayProjection displayProjection)
         else
           gpkgReadPromise ← async (readRawGpkg gpkgFile);
           async (then_ (allSettled promise gpkgReadPromise)
                    (on_settled gpkgFile displayProjection))) w
    end.

End Loader.

(** ** Sample data *)

(** A geometry cell with flags byte 3 (little endian, envelope code 1), a
    32-byte envelope and a 5-byte payload. *)
Definition sample_cell : list byte :=
  [x47; x50; x00; x03; xe6; x10; x00; x00] ++ replicate 32 x00 ++
  [x01; x01; x00; x00; x00].

(** A cell cut off inside its header. *)
Definition short_cell : list byte := [x47; x50; x00].

(** A header-only cell: four bytes, flags byte 0. *)
Definition truncated_cell : list byte := [x47; x50; x00; x00].

(** A package with two feature tables, [roads] in EPSG:4326 and
    [buildings] in the projection of the second argument, one feature
    each, and the given rows of [layer_styles] (no such table for [None]). *)
Definition package (buildings_srs : Z) (styles : option (list (list jsval)))
  : database :=
  λ sql,
    if String.eqb sql catalog_sql then
      inr {| columns := ["table_name"; "srs_id"; "column_name"];
             rows := [[JString "roads"; JNumber 4326; JString "geom"];
                      [JString "buildings"; JNumber buildings_srs;
                       JString "geom"]];
             failure := None |}
    else if String.eqb sql probe_sql then
      inr {| columns := ["table_name"];
             rows := match styles with
                     | Some _ => [[JString "layer_styles"]]
                     | None => []
                     end;
             failure := None |}
    else if String.eqb sql styles_sql then
      match styles with
      | Some pairs =>
          inr {| columns := ["f_table_name"; "styleSLD"];
                 rows := pairs;
                 failure := None |}
      | None => inl "no such table: layer_styles"
      end
    else if String.eqb sql (table_sql (JString "roads")) then
      inr {| columns := ["fid"; "geom"; "name"];
             rows := [[JNumber 1; JBytes sample_cell; JString "High Street"]];
             failure := None |}
    else if String.eqb sql (table_sql (JString "buildings")) then
      inr {| columns := ["fid"; "geom"];
             rows := [[JNumber 7; JBytes sample_cell]];
             failure := None |}
    else inl "no such table".

Definition sample_styles : list (list jsval) :=
  [[JString "roads"; JString "<sld/>"]].

(** Two styles saved for the same layer. *)
Definition two_styles : list (list jsval) :=
  [[JString "roads"; JString "<a/>"]; [JString "roads"; JString "<b/>"]].

Definition sample_bytes : list byte := [x53; x51; x4c; x69; x74; x65].

Definition sample_engine (db : database) : engine := λ _, inr db.

Definition sample_body : source :=
  {| has_bytes := true;
     bytes_method := Fulfilled sample_bytes;
     arrayBuffer := Fulfilled sample_bytes |}.

(** An environment with the three projections of the example registered,
    the engine binary found beside the page, [roads.gpkg] served and every
    other URL answered with 404. *)
Definition sample_env (db : database) : environment :=
  {| ol_proj_get := λ code,
       String.eqb code "EPSG:3857" || String.eqb code "EPSG:4326" ||
       String.eqb code "EPSG:27700";
     initSqlJs := λ url,
       if String.eqb url "./sql-wasm.wasm" then Fulfilled (sample_engine db)
       else Rejected "failed to fetch the wasm binary";
     fetch := λ url,
       if String.eqb url "roads.gpkg" then
         Fulfilled {| ok := true; status := 200; statusText := "OK";
                      body := sample_body |}
       else
         Fulfilled {| ok := false; status := 404; statusText := "Not Found";
                      body := sample_body |};
     readFeatures := λ _ _ _, None |}.

Definition fresh_world : world :=
  {| promiseSqlWasmLoaded := None; initSqlJsPromise := None; log := [] |}.

(** The world once [initSqlJsWasm('.')] has been called and has settled. *)
Definition ready_world (db : database) : world :=
  snd (initSqlJsWasm (sample_env db) (Some ".") fresh_world).

(** The world once [initSqlJsWasm('/nowhere')] has been called and failed. *)
Definition failed_world (db : database) : world :=
  snd (initSqlJsWasm (sample_env db) (Some "/nowhere") fresh_world).

(** The package of the example: [buildings] in EPSG:27700 and one style. *)
Definition sample_db : database := package 27700 (Some sample_styles).

Definition sample_load
  : (error + gmap string ol_source_Vector * gmap string jsval) * world :=
  processGpkgData (sample_env sample_db) "roads.gpkg" sample_bytes
    (sample_engine sample_db) "EPSG:3857" fresh_world.

Definition sample_loaded : gmap string ol_source_Vector * gmap string jsval :=
  match fst sample_load with
  | inr loaded => loaded
  | inl _ => (∅, ∅)
  end.

(** The same package with two styles saved for [roads]. *)
Definition restyled_db : database := package 27700 (Some two_styles).

Definition restyled_load
  : (error + gmap string ol_source_Vector * gmap string jsval) * world :=
  processGpkgData (sample_env restyled_db) "roads.gpkg" sample_bytes
    (sample_engine restyled_db) "EPSG:3857" fresh_world.

Definition restyled_loaded
  : gmap string ol_source_Vector * gmap string jsval :=
  match fst restyled_load with
  | inr loaded => loaded
  | inl _ => (∅, ∅)
  end.

(** The same package with [buildings] in a projection nobody registered. *)
Definition lambert_db : database := package 2154 None.

Definition roads_table : descriptor :=
  {| table_name := JString "roads";
     srs_id := "4326";
     geometry_column_name := JString "geom" |}.

Definition buildings_table (srs : string) : descriptor :=
  {| table_name := JString "buildings";
     srs_id := srs;
     geometry_column_name := JString "geom" |}.

(** ** Vocabulary of the statements *)

(** The world after further calls to the collaborators. *)
Definition extend (w : world) (evs : list event) : world :=
  {| promiseSqlWasmLoaded := promiseSqlWasmLoaded w;
     initSqlJsPromise := initSqlJsPromise w;
     log := log w ++ evs |}.

(** [m] returns [r] and makes exactly the calls [evs], in every world. *)
Definition runs {A : Type} (m : M A) (r : error + A) (evs : list event)
  : Prop :=
  ∀ w, m w = (r, extend w evs).

(** [m] neither reads nor writes the module variable. *)
Definition writer {A : Type} (m : M A) : Prop :=
  ∃ r evs, runs m r evs.

(** The same for an async function or a [then]. *)
Definition settles {A : Type} (f : world → pstate error A * world)
    (p : pstate error A) (evs : list event) : Prop :=
  ∀ w, f w = (p, extend w evs).

(** The key a catalog row or a descriptor gives its table, the source
    projection it declares and the key of its geometry column. *)
Definition table_key (table : descriptor) : string :=
  js_to_string (table_name table).

Definition source_projection (table : descriptor) : string :=
  "EPSG:" +:+ srs_id table.

Definition geometry_key (table : descriptor) : string :=
  js_to_string (geometry_column_name table).

(** A row of the catalog query and the descriptor made of it. *)
Definition describes (row : list jsval) (table : descriptor) : Prop :=
  table_name table = at_index row 0 ∧
  toString_method (at_index row 1) = inr (srs_id table) ∧
  geometry_column_name table = at_index row 2.

(** A vector source as [process_table] leaves it for a descriptor. *)
Definition materializes (table : descriptor) (vs : ol_source_Vector) : Prop :=
  source_properties vs !! "origProjection" = Some (source_projection table) ∧
  Forall (λ f, feature_properties f !! geometry_key table = None)
    (features vs).

(** The (name, style) pair of a row of [layer_styles]. *)
Definition style_pair (row : list jsval) : string * jsval :=
  (js_to_string (at_index row 0), at_index row 1).

(** ** Further vocabulary and samples *)

(** The calls [processGpkgData] makes go to the engine and to the
    projection registry. *)
Definition engine_or_registry (ev : event) : Prop :=
  match ev with
  | EvOpen | EvPrepare _ | EvStep _ | EvProjGet _ => True
  | _ => False
  end.

Definition is_fetch (ev : event) : bool :=
  match ev with
  | EvFetch _ => true
  | _ => false
  end.

(** The errors [processGpkgData] throws. *)
Definition extraction_error (e : error) : Prop :=
  match e with
  | CatalogExtractionFailed _ | UnknownSourceProjection _ _
  | InvalidEnvelopeFlag | RuntimeTypeError _ | External _ => True
  | _ => False
  end.

(** The errors [loadGpkg] throws by itself, before it returns a promise. *)
Definition synchronous_error (e : error) : Prop :=
  match e with
  | WasmNotInitialized | UnknownDisplayProjection _ => True
  | _ => False
  end.

(** [m] is a [writer] whose calls all satisfy [Pev] and whose error, if it
    throws, satisfies [Perr]. *)
Definition confined {A : Type} (Pev : event → Prop) (Perr : error → Prop)
    (m : M A) : Prop :=
  ∃ r evs, runs m r evs ∧ Forall Pev evs ∧ ∀ e, r = inl e → Perr e.

(** The feature the body of the inner [while] makes of one row, or the
    error it throws on it. *)
Definition row_feature (E : environment) (names : list string)
    (table : descriptor) (displayProjection : string) (row : list jsval)
  : error + feature :=
  let properties := getAsObject names row in
  match parseGpkgGeom (get_property properties (geometry_key table)) with
  | inl e => inl e
  | inr featureWkb =>
      match readFeatures E featureWkb (source_projection table)
              displayProjection with
      | Some shown => inl (External shown)
      | None =>
          setProperties
            {| wkb := featureWkb;
               dataProjection := source_projection table;
               featureProjection := displayProjection |}
            (delete (geometry_key table) properties)
      end
  end.

(** The fetches [readRawGpkg] issues for an input. *)
Definition requests (input : gpkg_source) : list event :=
  match input with
  | InString url | InURL url => [EvFetch url]
  | InBlob _ _ | InOther _ => []
  end.

(** The read [readRawGpkg] awaits on a Blob or a Response: [bytes()] when
    the method exists, [arrayBuffer()] otherwise. *)
Definition reading (gpkgSource : source) : pstate string (list byte) :=
  if has_bytes gpkgSource then bytes_method gpkgSource
  else arrayBuffer gpkgSource.

(** The URL an input is fetched from, if it is fetched. *)
Definition url_of (input : gpkg_source) : option string :=
  match input with
  | InString url | InURL url => Some url
  | InBlob _ _ | InOther _ => None
  end.

(** The Blob or ok Response whose bytes are read, if there is one. *)
Definition source_of (E : environment) (input : gpkg_source)
  : option source :=
  match input with
  | InBlob blob _ => Some blob
  | InString url | InURL url =>
      match fetch E url with
      | Fulfilled response =>
          if ok response then Some (body response) else None
      | _ => None
      end
  | InOther _ => None
  end.


(** The vector source [process_table] stores for a table. *)
Definition table_source (table : descriptor) (fs : list feature)
  : ol_source_Vector :=
  {| features := fs;
     source_properties := {[ "origProjection" := source_projection table ]} |}.

(** The srs id of a catalog row is NULL, or the row has none. *)
Definition lacks_srs (row : list jsval) : Prop :=
  at_index row 1 = JNull ∨ at_index row 1 = JUndefined.


(** The new calls in a log that grew from [before] to [after]. *)
Definition calls_since (before after : world) : list event :=
  drop (length (log before)) (log after).

(** Two cells with the same flag bits 1 to 3 and the same bytes from
    offset 8 on, and nothing else in common. *)
Definition scrambled_cell : list byte :=
  [x00; x00; xff; xf2; xff; xff; xff; xff] ++ replicate 32 x00 ++
  [x01; x01; x00; x00; x00].

(** A database answering the four kinds of query from given answers. *)
Definition make_db (catalog probe styles : string + statement)
    (tables : list (string * (string + statement))) : database :=
  λ sql,
    if String.eqb sql catalog_sql then catalog
    else if String.eqb sql probe_sql then probe
    else if String.eqb sql styles_sql then styles
    else
      match list_find (λ entry, table_sql (JString entry.1) = sql) tables with
      | Some (_, (_, answer)) => answer
      | None => inl "no such table"
      end.

Definition no_rows (names : list string) : string + statement :=
  inr {| columns := names; rows := []; failure := None |}.

Definition catalog_of (entries : list (list jsval)) : string + statement :=
  inr {| columns := ["table_name"; "srs_id"; "column_name"];
         rows := entries;
         failure := None |}.

(** A package without feature tables and without styles. *)
Definition empty_db : database :=
  make_db (catalog_of []) (no_rows ["table_name"])
    (inl "no such table: layer_styles") [].

(** A package whose second catalog row has a NULL srs id. *)
Definition null_srs_db : database :=
  make_db (catalog_of [[JString "roads"; JNumber 4326; JString "geom"];
                       [JString "buildings"; JNull; JString "geom"];
                       [JString "rivers"; JNumber 4326; JString "geom"]])
    (no_rows ["table_name"]) (inl "no such table: layer_styles") [].

(** A package whose contents list [layer_styles] although the table is
    gone. *)
Definition broken_styles_db : database :=
  make_db (catalog_of [[JString "roads"; JNumber 4326; JString "geom"]])
    (inr {| columns := ["table_name"];
            rows := [[JString "layer_styles"]];
            failure := None |})
    (inl "no such table: layer_styles")
    [("roads",
      inr {| columns := ["fid"; "geom"];
             rows := [[JNumber 1; JBytes sample_cell]];
             failure := None |})].


(** A package whose catalog returns two rows for [roads], with different
    srs ids and geometry columns. *)
Definition twin_db : database :=
  make_db (catalog_of [[JString "roads"; JNumber 4326; JString "geom"];
                       [JString "roads"; JNumber 3857; JString "geom2"]])
    (no_rows ["table_name"]) (inl "no such table: layer_styles")
    [("roads",
      inr {| columns := ["fid"; "geom"; "geom2"];
             rows := [[JNumber 1; JBytes sample_cell; JBytes sample_cell]];
             failure := None |})].

Definition twin_load
  : (error + gmap string ol_source_Vector * gmap string jsval) * world :=
  processGpkgData (sample_env twin_db) "twin.gpkg" sample_bytes
    (sample_engine twin_db) "EPSG:3857" fresh_world.

Definition twin_loaded : gmap string ol_source_Vector * gmap string jsval :=
  match fst twin_load with
  | inr loaded => loaded
  | inl _ => (∅, ∅)
  end.

(** A package that holds a table [layer_styles] with one style, which its
    contents table does not list. *)
Definition unlisted_styles_db : database :=
  make_db (catalog_of [[JString "roads"; JNumber 4326; JString "geom"]])
    (no_rows ["table_name"])
    (inr {| columns := ["f_table_name"; "styleSLD"];
            rows := sample_styles;
            failure := None |})
    [("roads",
      inr {| columns := ["fid"; "geom"];
             rows := [[JNumber 1; JBytes sample_cell]];
             failure := None |})].

Definition unlisted_styles_load
  : (error + gmap string ol_source_Vector * gmap string jsval) * world :=
  processGpkgData (sample_env unlisted_styles_db) "unlisted.gpkg" sample_bytes
    (sample_engine unlisted_styles_db) "EPSG:3857" fresh_world.

Definition broken_styles_load
  : (error + gmap string ol_source_Vector * gmap string jsval) * world :=
  processGpkgData (sample_env broken_styles_db) "broken.gpkg" sample_bytes
    (sample_engine broken_styles_db) "EPSG:3857" fresh_world.

(** ** The example page

    The basic example calls [loadGpkg] and shows the result: the handlers
    it gives to [then] and [catch], and its function
    [displayGpkgContents].  What the page does is recorded as a list of
    [page_event]s.  Three behaviours of the run time and of OpenLayers are
    parameters: the order in which [for ... in] enumerates the tables, the
    array [getFeatures()] returns for a vector source, and the names
    [Object.keys] lists for the properties of a feature. *)

Inductive page_event :=
| PageReport (html : string)              (* outputElem.innerHTML += html *)
| PageConsoleLog (text : string)
| PageConsoleLogStyles (sldsFromGpkg : gmap string jsval)
| PageAddLayer (table : string) (source : option ol_source_Vector)
| PageAlert (text : string).

Definition is_add_layer (ev : page_event) : bool :=
  match ev with
  | PageAddLayer _ _ => true
  | _ => false
  end.

Definition tables_header : string :=
  "<p>Details extracted for each table { " +:+
  dq +:+ "table name" +:+ dq +:+
  " [original projection]: (attribute names) }:</p><ul>".

Definition styles_console_text : string :=
  "Raw SLD XML strings for each layer (" +:+ dq +:+ "layer_styles" +:+ dq +:+
  " table):".

Definition styles_note : string :=
  "<p>(Raw SLD XML strings for each layer are shown in browser console.)<p>".

Definition alert_head : string :=
  "ol-load-geopackage loadGpkg() error:" +:+ nl.

Section ExamplePage.

Variable enumerate : gmap string ol_source_Vector → list string.
Variable getFeatures : ol_source_Vector → list feature.
Variable attribute_names : feature → list string.

(** The [for ... in] loop of [displayGpkgContents] over the tables still
    to visit. *)
Fixpoint tables_text (dataFromGpkg : gmap string ol_source_Vector)
    (remaining : list string) (tablesText : string) : error + string :=
  match remaining with
  | [] => inr tablesText
  | table :: rest =>
      match dataFromGpkg !! table with
      | None =>
          inl (RuntimeTypeError "Cannot read properties of undefined")
      | Some source =>
          let origProjection :=
            default "undefined" (source_properties source !! "origProjection")
          in
          let tablesText :=
            tablesText +:+ "<li>" +:+ dq +:+ table +:+ dq +:+ " [" +:+
            origProjection +:+ "]: (" in
          match getFeatures source with
          | [] =>
              inl (RuntimeTypeError "Cannot read properties of undefined")
          | first :: _ =>
              tables_text dataFromGpkg rest
                (tablesText +:+ join ", " (attribute_names first) +:+
                 ")</li>")
          end
      end
  end.

(** [displayGpkgContents(dataFromGpkg, sldsFromGpkg)]: the error it throws,
    if any, and what it did on the page. *)
Definition displayGpkgContents (dataFromGpkg : gmap string ol_source_Vector)
    (sldsFromGpkg : gmap string jsval) : option error * list page_event :=
  match tables_text dataFromGpkg (enumerate dataFromGpkg) tables_header with
  | inl e => (Some e, [])
  | inr tablesText =>
      (None,
       PageReport (tablesText +:+ "</ul>") ::
       if decide (size sldsFromGpkg = 0%nat) then []
       else [PageConsoleLog styles_console_text;
             PageConsoleLogStyles sldsFromGpkg;
             PageReport styles_note])
  end.

(** The callback given to [then]; [processingSecs] is the elapsed time as
    the page prints it. *)
Definition on_loaded (processingSecs : string)
    (loaded : gmap string ol_source_Vector * gmap string jsval)
  : option error * list page_event :=
  let '(dataFromGpkg, sldsFromGpkg) := loaded in
  let timing :=
    PageReport
      ("<p>...loading, data extraction and reprojection completed in " +:+
       processingSecs +:+ " seconds.</p>") in
  match displayGpkgContents dataFromGpkg sldsFromGpkg with
  | (Some e, done) => (Some e, timing :: done)
  | (None, done) =>
      (None,
       timing :: done ++
       ((λ table, PageAddLayer table (dataFromGpkg !! table)) <$>
          enumerate dataFromGpkg))
  end.

(** [gpkgPromise.then(...).catch(error => alert(...))], observed. *)
Definition show_load (processingSecs : string)
    (gpkgPromise :
       pstate error (gmap string ol_source_Vector * gmap string jsval))
  : list page_event :=
  match gpkgPromise with
  | Pending => []
  | Rejected e => [PageAlert (alert_head +:+ error_to_string e)]
  | Fulfilled loaded =>
      match on_loaded processingSecs loaded with
      | (Some e, done) => done ++ [PageAlert (alert_head +:+ error_to_string e)]
      | (None, done) => done
      end
  end.

End ExamplePage.

(** Run-time behaviours for the examples: tables enumerated in the order
    of the map, features in the order they were added, attribute names
    unlisted. *)
Definition sample_enumerate (data : gmap string ol_source_Vector)
  : list string :=
  (map_to_list data).*1.

(** A load result with one feature table that has no rows. *)
Definition vacant_loaded : gmap string ol_source_Vector * gmap string jsval :=
  (<["plots" := table_source (buildings_table "27700") []]> sample_loaded.1,
   ∅).

(** * Properties *)

(** ** How numbers print *)

Example number_to_string_srs_id : number_to_string 4326 = "4326".
Proof. reflexivity. Qed.

Example number_to_string_negative : number_to_string (-1) = "-1".
Proof. reflexivity. Qed.

Example number_to_string_last_exact :
  number_to_string (2 ^ 53) = "9007199254740992" ∧
  number_to_string (2 ^ 53 + 1) = "9007199254740992" ∧
  number_to_string (2 ^ 53 + 2) = "9007199254740994".
Proof. by vm_compute. Qed.

Example number_to_string_int64 :
  number_to_string (2 ^ 63 - 1) = "9223372036854776000" ∧
  number_to_string (- 2 ^ 63) = "-9223372036854776000".
Proof. by vm_compute. Qed.

Example number_to_string_exponent :
  number_to_string (10 ^ 20) = "100000000000000000000" ∧
  number_to_string (10 ^ 21) = "1e+21" ∧
  number_to_string (2 ^ 70) = "1.1805916207174113e+21".
Proof. by vm_compute. Qed.

Lemma number_to_string_exact (n : Z) :
  0 ≤ n < 2 ^ 53 → number_to_string n = pretty n.
Proof.
  intros [Hlo Hhi]. unfold number_to_string.
  rewrite Z.abs_eq by done.
  destruct (Z.ltb_spec n (2 ^ 53)) as [_|Hge]; [|lia].
  by destruct (Z.ltb_spec n 0) as [Hneg|_]; [lia|].
Qed.

(** ** The envelope parser *)

Lemma subarray_drop (n : Z) (a : list byte) :
  0 ≤ n → subarray n a = drop (Z.to_nat n) a.
Proof.
  intros Hn. unfold subarray.
  destruct (Z.ltb_spec n 0) as [Hneg|_]; [lia|].
  destruct (Z.le_gt_cases n (Z.of_nat (length a))) as [Hle|Hgt].
  - by rewrite Z.min_l.
  - rewrite Z.min_r by lia. rewrite Nat2Z.id.
    rewrite !drop_ge; [done | lia | lia].
Qed.

Lemma subarray_length (n : Z) (a : list byte) :
  0 ≤ n →
  Z.of_nat (length (subarray n a)) = Z.max 0 (Z.of_nat (length a) - n).
Proof. intros Hn. rewrite subarray_drop, length_drop by done. lia. Qed.

Lemma eFlags_range (cell : list byte) : 0 ≤ eFlags_of cell ≤ 7.
Proof.
  unfold eFlags_of. destruct (flags_of cell) as [b|]; [|by vm_compute].
  destruct b; by vm_compute.
Qed.

Lemma wkbOffset_values (e offset : Z) :
  wkbOffset e = Some offset →
  (e = 0 ∧ offset = 8) ∨ (e = 1 ∧ offset = 40) ∨ (e = 2 ∧ offset = 56) ∨
  (e = 3 ∧ offset = 56) ∨ (e = 4 ∧ offset = 72).
Proof.
  unfold wkbOffset, envelopeSize.
  destruct e as [|[[[]|[]|]|[[]|[]|]|]|]; intros [= <-]; naive_solver.
Qed.

Lemma wkbOffset_nonneg (e offset : Z) :
  wkbOffset e = Some offset → 0 ≤ offset.
Proof. intros H. apply wkbOffset_values in H. lia. Qed.

Lemma short_cell_flags (cell : list byte) :
  (length cell < 4)%nat → flags_of cell = None ∧ eFlags_of cell = 0.
Proof.
  intros Hlen. assert (flags_of cell = None) as Hnone.
  { unfold flags_of. apply lookup_ge_None. lia. }
  split; [done|]. unfold eFlags_of. by rewrite Hnone.
Qed.

(** C1. For a geometry cell whose 3-bit field [e = (flags >> 1) & 7] is 0,
    1, 2, 3 or 4 the parser returns the bytes from offset 8, 40, 56, 56 or
    72 on; when it is 5, 6 or 7 the parser fails with the invalid envelope
    flag error.  The field has no other value. *)
Theorem parseGpkgGeom_payload_offset (cell : list byte) (e : Z) :
  eFlags_of cell = e →
  0 ≤ e ≤ 7 ∧
  (e = 0 → parseGpkgGeom (JBytes cell) = inr (drop 8 cell)) ∧
  (e = 1 → parseGpkgGeom (JBytes cell) = inr (drop 40 cell)) ∧
  (e = 2 → parseGpkgGeom (JBytes cell) = inr (drop 56 cell)) ∧
  (e = 3 → parseGpkgGeom (JBytes cell) = inr (drop 56 cell)) ∧
  (e = 4 → parseGpkgGeom (JBytes cell) = inr (drop 72 cell)) ∧
  (e = 5 ∨ e = 6 ∨ e = 7 →
   parseGpkgGeom (JBytes cell) = inl InvalidEnvelopeFlag).
Proof.
  intros <-. split; [apply eFlags_range|].
  unfold parseGpkgGeom.
  repeat split; intros Hcase.
  1-5: rewrite Hcase; cbn [wkbOffset envelopeSize];
       by rewrite subarray_drop.
  by destruct Hcase as [Hcase|[Hcase|Hcase]]; rewrite Hcase.
Qed.

Lemma parseGpkgGeom_payload_offset_witness :
  eFlags_of sample_cell = 1 ∧
  parseGpkgGeom (JBytes sample_cell) = inr [x01; x01; x00; x00; x00].
Proof.
  split; [reflexivity|].
  destruct (parseGpkgGeom_payload_offset sample_cell 1 eq_refl)
    as (_ & _ & H1 & _).
  exact (H1 eq_refl).
Defined.

(** C2, as the code has it.  For a cell of length [L] with a valid flag the
    payload has length [L - offset] when the cell is at least [offset]
    bytes long and length 0 otherwise; the offset is a function of the
    element read at index 3 alone. *)
Theorem parseGpkgGeom_payload_length (cell : list byte) (offset : Z) :
  wkbOffset (eFlags_of cell) = Some offset →
  (∃ payload,
     parseGpkgGeom (JBytes cell) = inr payload ∧
     Z.of_nat (length payload) = Z.max 0 (Z.of_nat (length cell) - offset) ∧
     (offset ≤ Z.of_nat (length cell) →
      Z.of_nat (length payload) = Z.of_nat (length cell) - offset)) ∧
  (∀ cell' : list byte,
     flags_of cell' = flags_of cell →
     wkbOffset (eFlags_of cell') = Some offset).
Proof.
  intros Hoff. split.
  - exists (subarray offset cell). unfold parseGpkgGeom. rewrite Hoff.
    split; [done|].
    rewrite subarray_length by (by eapply wkbOffset_nonneg). lia.
  - intros cell' Hflags. unfold eFlags_of in *. by rewrite Hflags.
Qed.

Lemma parseGpkgGeom_payload_length_witness :
  ∃ payload,
    parseGpkgGeom (JBytes sample_cell) = inr payload ∧
    Z.of_nat (length payload) = 5.
Proof.
  destruct (parseGpkgGeom_payload_length sample_cell 40 eq_refl)
    as [(payload & Hparse & Hlen & _) _].
  exists payload. split; [exact Hparse | exact Hlen].
Defined.

(** C2, as stated, fails on a cell shorter than its offset: four bytes
    with flags byte 0 give offset 8 and an empty payload, not one of
    length 4 - 8. *)
Lemma parseGpkgGeom_payload_length_counterexample :
  wkbOffset (eFlags_of truncated_cell) = Some 8 ∧
  parseGpkgGeom (JBytes truncated_cell) = inr [] ∧
  Z.of_nat (length (@nil byte)) ≠ Z.of_nat (length truncated_cell) - 8.
Proof. repeat split. vm_compute. discriminate. Qed.

(** C10. The parser never rejects a truncated cell.  For a cell of fewer
    than 4 bytes the read at index 3 is out of range, the flag field is 0
    and the parser returns the slice from offset 8, which is empty; for a
    valid flag and a cell no longer than 8 plus the envelope size it
    returns the empty slice. *)
Theorem parseGpkgGeom_truncated (cell : list byte) :
  ((length cell < 4)%nat →
   flags_of cell = None ∧ eFlags_of cell = 0 ∧
   parseGpkgGeom (JBytes cell) = inr (subarray 8 cell) ∧
   subarray 8 cell = []) ∧
  (∀ offset : Z,
     wkbOffset (eFlags_of cell) = Some offset →
     Z.of_nat (length cell) ≤ offset →
     parseGpkgGeom (JBytes cell) = inr []).
Proof.
  split.
  - intros Hlen. destruct (short_cell_flags cell Hlen) as [Hnone Hzero].
    repeat split; [done | done | |].
    + unfold parseGpkgGeom. by rewrite Hzero.
    + rewrite subarray_drop by done. apply drop_ge. lia.
  - intros offset Hoff Hlen. unfold parseGpkgGeom. rewrite Hoff.
    apply wkbOffset_nonneg in Hoff.
    rewrite subarray_drop by done. rewrite drop_ge; [done | lia].
Qed.

Lemma parseGpkgGeom_truncated_witness :
  parseGpkgGeom (JBytes short_cell) = inr [] ∧
  parseGpkgGeom (JBytes truncated_cell) = inr [].
Proof.
  split.
  - destruct (parseGpkgGeom_truncated short_cell) as [Hshort _].
    destruct Hshort as (_ & _ & Hparse & Hempty);
      [vm_compute; lia | by rewrite Hparse, Hempty].
  - destruct (parseGpkgGeom_truncated truncated_cell) as [_ Hgen].
    apply (Hgen 8); [reflexivity | vm_compute; discriminate].
Defined.

(** ** Computations that only call collaborators *)

Lemma extend_nil (w : world) : extend w [] = w.
Proof. destruct w. unfold extend. simpl. by rewrite app_nil_r. Qed.

Lemma extend_extend (w : world) (evs evs' : list event) :
  extend (extend w evs) evs' = extend w (evs ++ evs').
Proof. unfold extend. simpl. by rewrite app_assoc. Qed.

Lemma emit_extend (w : world) (ev : event) : emit ev w = extend w [ev].
Proof. reflexivity. Qed.

Lemma runs_det {A : Type} (m : M A) r r' evs evs' :
  runs m r evs → runs m r' evs' → r = r' ∧ evs = evs'.
Proof.
  intros H H'. specialize (H fresh_world). specialize (H' fresh_world).
  rewrite H in H'. by injection H' as -> ->.
Qed.

Lemma runs_ret {A : Type} (a : A) : runs (mret a) (inr a) [].
Proof. intros w. by rewrite extend_nil. Qed.

Lemma runs_throw {A : Type} (e : error) : runs (@throw A e) (inl e) [].
Proof. intros w. by rewrite extend_nil. Qed.

Lemma runs_tell (ev : event) : runs (tell ev) (inr ()) [ev].
Proof. by intros w. Qed.

Lemma runs_bind {A B : Type} (m : M A) (f : A → M B) a r evs evs' :
  runs m (inr a) evs → runs (f a) r evs' → runs (m ≫= f) r (evs ++ evs').
Proof.
  intros Hm Hf w. unfold mbind, M_bind.
  by rewrite Hm, Hf, extend_extend.
Qed.

Lemma runs_bind_throw {A B : Type} (m : M A) (f : A → M B) e evs :
  runs m (inl e) evs → runs (m ≫= f) (inl e) evs.
Proof. intros Hm w. unfold mbind, M_bind. by rewrite Hm. Qed.

Lemma runs_of_external {A : Type} (r : string + A) :
  runs (of_external r)
       (match r with inl shown => inl (External shown) | inr a => inr a end)
       [].
Proof. destruct r; [apply runs_throw | apply runs_ret]. Qed.

Lemma runs_of_result {A : Type} (r : error + A) : runs (of_result r) r [].
Proof. destruct r; [apply runs_throw | apply runs_ret]. Qed.

Create HintDb writer.

Lemma writer_ret {A : Type} (a : A) : writer (mret a).
Proof. eexists _, _. apply runs_ret. Qed.

Lemma writer_throw {A : Type} (e : error) : writer (@throw A e).
Proof. eexists _, _. apply runs_throw. Qed.

Lemma writer_tell (ev : event) : writer (tell ev).
Proof. eexists _, _. apply runs_tell. Qed.

Lemma writer_bind {A B : Type} (m : M A) (f : A → M B) :
  writer m → (∀ a, writer (f a)) → writer (m ≫= f).
Proof.
  intros (r & evs & Hm) Hf. destruct r as [e|a].
  - eexists _, _. by apply runs_bind_throw.
  - destruct (Hf a) as (r' & evs' & Hfa). eexists _, _. by eapply runs_bind.
Qed.

Lemma writer_try_catch {A : Type} (m : M A) (handler : error → M A) :
  writer m → (∀ e, writer (handler e)) → writer (try_catch m handler).
Proof.
  intros (r & evs & Hm) Hh. destruct r as [e|a].
  - destruct (Hh e) as (r' & evs' & Hhe). exists r', (evs ++ evs').
    intros w. unfold try_catch. by rewrite Hm, Hhe, extend_extend.
  - exists (inr a), evs. intros w. unfold try_catch. by rewrite Hm.
Qed.

Lemma writer_of_external {A : Type} (r : string + A) : writer (of_external r).
Proof. eexists _, _. apply runs_of_external. Qed.

Lemma writer_of_result {A : Type} (r : error + A) : writer (of_result r).
Proof. eexists _, _. apply runs_of_result. Qed.

#[local] Hint Resolve writer_ret writer_throw writer_tell writer_bind
  writer_try_catch writer_of_external writer_of_result : writer.

Lemma writer_prepare (db : database) (sql : string) : writer (prepare db sql).
Proof. unfold prepare. auto with writer. Qed.

Lemma writer_step_once (sql : string) (stmt : statement) :
  writer (step_once sql stmt).
Proof.
  unfold step_once. apply writer_bind; [auto with writer|]. intros _.
  destruct (rows stmt), (failure stmt); auto with writer.
Qed.

Lemma writer_while_step {A : Type} sql (body : list jsval → A → M A)
    remaining failure acc :
  (∀ row acc, writer (body row acc)) →
  writer (while_step sql body remaining failure acc).
Proof.
  intros Hbody. revert acc.
  induction remaining as [|row rest IH]; intros acc; simpl.
  - apply writer_bind; [auto with writer|]. intros _.
    destruct failure; auto with writer.
  - auto with writer.
Qed.

#[local] Hint Resolve writer_prepare writer_step_once writer_while_step
  : writer.

Section LoaderWriters.

Variable E : environment.

Lemma writer_proj_get (code : string) : writer (proj_get E code).
Proof. unfold proj_get. auto with writer. Qed.

Lemma writer_catalog_row row acc : writer (catalog_row row acc).
Proof. unfold catalog_row. auto with writer. Qed.

Lemma writer_extract_catalog bytes sqlWasm :
  writer (extract_catalog bytes sqlWasm).
Proof.
  unfold extract_catalog, open_and_list.
  auto 10 using writer_catalog_row with writer.
Qed.

Lemma writer_style_row row acc : writer (style_row row acc).
Proof. unfold style_row. auto with writer. Qed.

Lemma writer_extract_styles db : writer (extract_styles db).
Proof.
  unfold extract_styles.
  apply writer_bind; [auto with writer|]. intros stmt.
  apply writer_bind; [auto with writer|]. intros [|];
    auto using writer_style_row with writer.
Qed.

Lemma writer_feature_row names table proj row vs :
  writer (feature_row E names table proj row vs).
Proof.
  unfold feature_row.
  apply writer_bind; [auto with writer|]. intros featureWkb.
  destruct (readFeatures E _ _ _); auto with writer.
Qed.

Lemma writer_process_table db proj table data :
  writer (process_table E db proj table data).
Proof.
  unfold process_table.
  apply writer_bind; [apply writer_proj_get|]. intros [|]; simpl;
    auto 10 using writer_feature_row with writer.
Qed.

Lemma writer_process_tables db proj tables data :
  writer (process_tables E db proj tables data).
Proof.
  revert data. induction tables as [|table rest IH]; intros data; simpl;
    auto using writer_process_table with writer.
Qed.

Lemma writer_processGpkgData name bytes sqlWasm proj :
  writer (processGpkgData E name bytes sqlWasm proj).
Proof.
  unfold processGpkgData.
  apply writer_bind; [apply writer_extract_catalog|]. intros [db tables].
  auto 10 using writer_extract_styles, writer_process_tables with writer.
Qed.

Lemma writer_on_settled gpkgFile proj results :
  writer (on_settled E gpkgFile proj results).
Proof.
  unfold on_settled. destruct results as [[sqlWasm|reason] [bytes|reason']];
    auto using writer_processGpkgData with writer.
Qed.

Lemma settles_readRawGpkg (input : gpkg_source) :
  ∃ p evs, settles (readRawGpkg E input) p evs.
Proof.
  destruct input as [blob name|url|href|shown]; simpl.
  - exists (read_source blob), []. intros w. by rewrite extend_nil.
  - destruct (fetch E url) as [|resp|reason] eqn:Hfetch;
      [| destruct (ok resp) eqn:Hok |];
      eexists _, [EvFetch url]; intros w; simpl; rewrite Hfetch, ?Hok;
      reflexivity.
  - destruct (fetch E href) as [|resp|reason] eqn:Hfetch;
      [| destruct (ok resp) eqn:Hok |];
      eexists _, [EvFetch href]; intros w; simpl; rewrite Hfetch, ?Hok;
      reflexivity.
  - exists (Rejected InvalidInputKind), []. intros w. by rewrite extend_nil.
Qed.

Lemma settles_then {A B : Type} (p : pstate error A) (k : A → M B) :
  (∀ a, writer (k a)) → ∃ q evs, settles (then_ p k) q evs.
Proof.
  intros Hk. destruct p as [|a|reason].
  - exists Pending, []. intros w. simpl. by rewrite extend_nil.
  - destruct (Hk a) as ([e|b] & evs & Hrun).
    + exists (Rejected e), evs. intros w. simpl. by rewrite Hrun.
    + exists (Fulfilled b), evs. intros w. simpl. by rewrite Hrun.
  - exists (Rejected reason), []. intros w. simpl. by rewrite extend_nil.
Qed.

End LoaderWriters.

Lemma append_assoc (a b c : string) : (a +:+ b) +:+ c = a +:+ b +:+ c.
Proof.
  induction a as [|ch a IH]; [done|].
  change (String ch ((a +:+ b) +:+ c) = String ch (a +:+ b +:+ c)).
  by rewrite IH.
Qed.

(** ** The binary store loader and the orchestrator *)

Section Orchestrator.

Variable E : environment.

Lemma read_source_not_input_kind (gpkgSource : source) :
  read_source gpkgSource ≠ Rejected InvalidInputKind.
Proof.
  unfold read_source.
  destruct (if has_bytes gpkgSource then _ else _); discriminate.
Qed.

Lemma readRawGpkg_url (input : gpkg_source) (url : string) (w : world) :
  input = InString url ∨ input = InURL url →
  readRawGpkg E input w =
  (match fetch E url with
   | Pending => Pending
   | Rejected reason => Rejected (External reason)
   | Fulfilled resp =>
       if ok resp then read_source (body resp)
       else Rejected (SourceUnreachable url (status resp) (statusText resp))
   end, emit (EvFetch url) w).
Proof.
  intros [-> | ->]; simpl;
    destruct (fetch E url) as [|resp|reason]; try reflexivity;
    by destruct (ok resp).
Qed.

(** C8. [readRawGpkg] rejects with the input-kind error exactly the inputs
    that are neither a string, a URL object nor a Blob; it reads a Blob
    without touching the network; for a string or a URL object it issues
    one fetch, and a response that is not ok rejects with the
    source-unreachable error, which carries the response status and whose
    message shows it. *)
Theorem readRawGpkg_inputs :
  (∀ shown w,
     readRawGpkg E (InOther shown) w = (Rejected InvalidInputKind, w)) ∧
  (∀ input w,
     fst (readRawGpkg E input w) = Rejected InvalidInputKind →
     ∃ shown, input = InOther shown) ∧
  (∀ blob name w,
     readRawGpkg E (InBlob blob name) w = (read_source blob, w)) ∧
  (∀ input url w,
     input = InString url ∨ input = InURL url →
     snd (readRawGpkg E input w) = emit (EvFetch url) w ∧
     ∀ resp,
       fetch E url = Fulfilled resp →
       (ok resp = true →
        fst (readRawGpkg E input w) = read_source (body resp)) ∧
       (ok resp = false →
        fst (readRawGpkg E input w) =
          Rejected (SourceUnreachable url (status resp) (statusText resp)) ∧
        ∃ head,
          message (SourceUnreachable url (status resp) (statusText resp)) =
          head +:+ "Response: (" +:+ pretty (status resp) +:+ ") " +:+
          statusText resp)).
Proof.
  split; [done|]. split; [|split; [done|]].
  - intros [blob name|url|href|shown] w Hrej; [| | |by eexists].
    + by apply read_source_not_input_kind in Hrej.
    + rewrite (readRawGpkg_url _ url) in Hrej by auto. simpl in Hrej.
      destruct (fetch E url) as [|resp|reason]; try discriminate.
      destruct (ok resp); [|discriminate].
      by apply read_source_not_input_kind in Hrej.
    + rewrite (readRawGpkg_url _ href) in Hrej by auto. simpl in Hrej.
      destruct (fetch E href) as [|resp|reason]; try discriminate.
      destruct (ok resp); [|discriminate].
      by apply read_source_not_input_kind in Hrej.
  - intros input url w Hurl. rewrite (readRawGpkg_url _ url) by done.
    split; [done|]. intros resp Hfetch. simpl. rewrite Hfetch.
    split; intros Hok; rewrite Hok; [done|]. split; [done|].
    exists ("GPKG file could not be loaded from URL:" +:+ nl +:+
            "  " +:+ url +:+ nl).
    simpl. by rewrite !append_assoc.
Qed.

Lemma loadGpkg_started gpkgFile proj w promise :
  promiseSqlWasmLoaded w = Some promise →
  ol_proj_get E proj = true →
  loadGpkg E gpkgFile proj w =
  (inr (fst (then_ (allSettled promise
                      (fst (readRawGpkg E gpkgFile (emit (EvProjGet proj) w))))
               (on_settled E gpkgFile proj)
               (snd (readRawGpkg E gpkgFile (emit (EvProjGet proj) w))))),
   snd (then_ (allSettled promise
                 (fst (readRawGpkg E gpkgFile (emit (EvProjGet proj) w))))
          (on_settled E gpkgFile proj)
          (snd (readRawGpkg E gpkgFile (emit (EvProjGet proj) w))))).
Proof.
  intros Hsome Hreg. unfold loadGpkg. rewrite Hsome.
  unfold proj_get, mbind, M_bind, tell, mret, M_ret, async. simpl.
  rewrite Hreg. simpl.
  destruct (readRawGpkg E gpkgFile _) as [read w1]. simpl.
  by destruct (then_ _ _ w1).
Qed.

Lemma loadGpkg_unregistered gpkgFile proj w promise :
  promiseSqlWasmLoaded w = Some promise →
  ol_proj_get E proj = false →
  loadGpkg E gpkgFile proj w =
  (inl (UnknownDisplayProjection proj), emit (EvProjGet proj) w).
Proof.
  intros Hsome Hreg. unfold loadGpkg. rewrite Hsome.
  unfold proj_get, mbind, M_bind, tell, mret, M_ret. simpl.
  by rewrite Hreg.
Qed.

(** C3. [loadGpkg] throws, instead of returning a promise, exactly when
    [promiseSqlWasmLoaded] is still undefined or the display projection is
    not registered.  In the first case it throws the not-initialized error
    and calls no collaborator; in the second it throws the unknown display
    projection error having only consulted the projection registry.  No
    fetch is issued in either case. *)
Theorem loadGpkg_throws_synchronously gpkgFile proj w :
  ((∃ e, fst (loadGpkg E gpkgFile proj w) = inl e) ↔
   promiseSqlWasmLoaded w = None ∨ ol_proj_get E proj = false) ∧
  (promiseSqlWasmLoaded w = None →
   loadGpkg E gpkgFile proj w = (inl WasmNotInitialized, w)) ∧
  (promiseSqlWasmLoaded w ≠ None →
   ol_proj_get E proj = false →
   loadGpkg E gpkgFile proj w =
     (inl (UnknownDisplayProjection proj), emit (EvProjGet proj) w)).
Proof.
  assert (promiseSqlWasmLoaded w = None →
          loadGpkg E gpkgFile proj w = (inl WasmNotInitialized, w)) as Hnone.
  { intros Hnone. unfold loadGpkg. by rewrite Hnone. }
  split; [split|split].
  - intros [e He].
    destruct (promiseSqlWasmLoaded w) as [promise|] eqn:Hsome; [|by left].
    right. destruct (ol_proj_get E proj) eqn:Hreg; [|done].
    by rewrite (loadGpkg_started _ _ _ promise) in He.
  - intros [Hundef|Hreg].
    + exists WasmNotInitialized. by rewrite Hnone.
    + destruct (promiseSqlWasmLoaded w) as [promise|] eqn:Hsome.
      * eexists. by rewrite (loadGpkg_unregistered _ _ _ promise).
      * exists WasmNotInitialized. by rewrite Hnone.
  - exact Hnone.
  - intros Hdef Hreg.
    destruct (promiseSqlWasmLoaded w) as [promise|] eqn:Hsome; [|done].
    by apply (loadGpkg_unregistered _ _ _ promise).
Qed.

(** C7. Once started, [loadGpkg] returns a promise that stays pending
    while either the engine promise or the read promise is pending,
    whatever the state of the other.  When both have settled: a rejected
    engine promise rejects the load with the engine-load error, also when
    the read was rejected too; a rejected read, the engine being loaded,
    rejects the load with the very reason of the read; and when both are
    fulfilled the load is the outcome of [processGpkgData].  Only in that
    last case is anything done after the read was started. *)
Theorem loadGpkg_waits_for_both gpkgFile proj w wasm read w1 :
  promiseSqlWasmLoaded w = Some wasm →
  ol_proj_get E proj = true →
  readRawGpkg E gpkgFile (emit (EvProjGet proj) w) = (read, w1) →
  (wasm = Pending ∨ read = Pending →
   loadGpkg E gpkgFile proj w = (inr Pending, w1)) ∧
  (∀ reason,
     wasm = Rejected reason → read ≠ Pending →
     loadGpkg E gpkgFile proj w =
       (inr (Rejected (WasmLoadFailed reason)), w1)) ∧
  (∀ sqlWasm reason,
     wasm = Fulfilled sqlWasm → read = Rejected reason →
     loadGpkg E gpkgFile proj w = (inr (Rejected reason), w1)) ∧
  (∀ sqlWasm bytes,
     wasm = Fulfilled sqlWasm → read = Fulfilled bytes →
     loadGpkg E gpkgFile proj w =
       (inr match fst (processGpkgData E (gpkgFileName gpkgFile) bytes
                         sqlWasm proj w1) with
            | inl e => Rejected e
            | inr loaded => Fulfilled loaded
            end,
        snd (processGpkgData E (gpkgFileName gpkgFile) bytes sqlWasm proj
               w1))) ∧
  (snd (loadGpkg E gpkgFile proj w) ≠ w1 →
   ∃ sqlWasm bytes, wasm = Fulfilled sqlWasm ∧ read = Fulfilled bytes).
Proof.
  intros Hsome Hreg Hread.
  rewrite (loadGpkg_started _ _ _ wasm Hsome Hreg), Hread. simpl.
  repeat split.
  - intros [-> | ->]; [done | by destruct wasm].
  - intros reason -> Hsettled. by destruct read.
  - by intros sqlWasm reason -> ->.
  - intros sqlWasm bytes -> ->. simpl.
    by destruct (processGpkgData E _ bytes sqlWasm proj w1) as [[e|v] w2].
  - intros Hmoved.
    destruct wasm as [|sqlWasm|reason], read as [|bytes|reason'];
      simpl in Hmoved; try done.
    by exists sqlWasm, bytes.
Qed.

(** A load that is fulfilled is a run of [processGpkgData] that returned. *)
Lemma loadGpkg_fulfilled gpkgFile proj w loaded :
  fst (loadGpkg E gpkgFile proj w) = inr (Fulfilled loaded) →
  ∃ sqlWasm bytes w1,
    promiseSqlWasmLoaded w = Some (Fulfilled sqlWasm) ∧
    readRawGpkg E gpkgFile (emit (EvProjGet proj) w) = (Fulfilled bytes, w1) ∧
    fst (processGpkgData E (gpkgFileName gpkgFile) bytes sqlWasm proj w1) =
      inr loaded.
Proof.
  intros Hload.
  destruct (promiseSqlWasmLoaded w) as [promise|] eqn:Hsome.
  - destruct (ol_proj_get E proj) eqn:Hreg.
    + rewrite (loadGpkg_started _ _ _ promise Hsome Hreg) in Hload.
      destruct (readRawGpkg E gpkgFile _) as [read w1].
      destruct promise as [|sqlWasm|reason], read as [|bytes|reason'];
        try discriminate.
      simpl in Hload. exists sqlWasm, bytes, w1. do 2 (split; [done|]).
      destruct (processGpkgData E _ bytes sqlWasm proj w1) as [[e|v] w2];
        [discriminate|].
      by injection Hload as ->.
    + by rewrite (loadGpkg_unregistered _ _ _ promise Hsome Hreg) in Hload.
  - unfold loadGpkg in Hload. by rewrite Hsome in Hload.
Qed.

Lemma loadGpkg_reads_only gpkgFile proj (signal : option (pstate string engine)) :
  ∃ r evs, ∀ w,
    promiseSqlWasmLoaded w = signal →
    loadGpkg E gpkgFile proj w = (r, extend w evs).
Proof.
  destruct signal as [promise|].
  - destruct (ol_proj_get E proj) eqn:Hreg.
    + destruct (settles_readRawGpkg E gpkgFile) as (read & evs1 & Hread).
      destruct (settles_then (allSettled promise read)
                  (on_settled E gpkgFile proj)
                  (writer_on_settled E gpkgFile proj))
        as (q & evs2 & Hthen).
      exists (inr q), ([EvProjGet proj] ++ evs1 ++ evs2). intros w Hsome.
      rewrite (loadGpkg_started _ _ _ promise Hsome Hreg).
      rewrite Hread. simpl. rewrite Hthen. simpl.
      by rewrite emit_extend, !extend_extend.
    + exists (inl (UnknownDisplayProjection proj)), [EvProjGet proj].
      intros w Hsome. by rewrite (loadGpkg_unregistered _ _ _ promise).
  - exists (inl WasmNotInitialized), []. intros w Hnone.
    unfold loadGpkg. rewrite Hnone. by rewrite extend_nil.
Qed.

(** C9. No call of [loadGpkg], failing or not, writes
    [promiseSqlWasmLoaded]: the world after the call is the world before
    it with more calls in the log, and a later call of [loadGpkg] returns
    what it would have returned had the earlier call not been made. *)
Theorem loadGpkg_preserves_signal gpkgFile proj w :
  promiseSqlWasmLoaded (snd (loadGpkg E gpkgFile proj w)) =
    promiseSqlWasmLoaded w ∧
  (∃ evs, snd (loadGpkg E gpkgFile proj w) = extend w evs) ∧
  (∀ gpkgFile' proj',
     fst (loadGpkg E gpkgFile' proj' (snd (loadGpkg E gpkgFile proj w))) =
     fst (loadGpkg E gpkgFile' proj' w)).
Proof.
  destruct (loadGpkg_reads_only gpkgFile proj (promiseSqlWasmLoaded w))
    as (r & evs & Hcall).
  rewrite (Hcall w eq_refl). simpl. repeat split; [by exists evs|].
  intros gpkgFile' proj'.
  destruct (loadGpkg_reads_only gpkgFile' proj' (promiseSqlWasmLoaded w))
    as (r' & evs' & Hcall').
  by rewrite (Hcall' w eq_refl), (Hcall' (extend w evs) eq_refl).
Qed.

(** By contrast [initSqlJsWasm] does write the signal. *)
Lemma initSqlJsWasm_writes_signal dir w :
  promiseSqlWasmLoaded (snd (initSqlJsWasm E dir w)) =
  Some (fst (initSqlJsWasm E dir w)).
Proof.
  unfold initSqlJsWasm. simpl. by destruct (initSqlJs_memoised E _ _).
Qed.

End Orchestrator.

Lemma loadGpkg_throws_synchronously_witness :
  let E := sample_env (package 27700 None) in
  let ready := ready_world (package 27700 None) in
  loadGpkg E (InString "roads.gpkg") "EPSG:3857" fresh_world =
    (inl WasmNotInitialized, fresh_world) ∧
  loadGpkg E (InString "roads.gpkg") "EPSG:2154" ready =
    (inl (UnknownDisplayProjection "EPSG:2154"),
     emit (EvProjGet "EPSG:2154") ready).
Proof.
  intros E ready. split.
  - destruct (loadGpkg_throws_synchronously E (InString "roads.gpkg")
                "EPSG:3857" fresh_world) as (_ & Hundef & _).
    apply Hundef. reflexivity.
  - destruct (loadGpkg_throws_synchronously E (InString "roads.gpkg")
                "EPSG:2154" ready) as (_ & _ & Hproj).
    apply Hproj; [discriminate | reflexivity].
Defined.

Lemma loadGpkg_waits_for_both_witness :
  let E := sample_env (package 27700 None) in
  let failed := failed_world (package 27700 None) in
  let started :=
    emit (EvFetch "missing.gpkg") (emit (EvProjGet "EPSG:3857") failed) in
  loadGpkg E (InString "missing.gpkg") "EPSG:3857" failed =
    (inr (Rejected (WasmLoadFailed "failed to fetch the wasm binary")),
     started).
Proof.
  intros E failed started.
  destruct (loadGpkg_waits_for_both E (InString "missing.gpkg") "EPSG:3857"
              failed (Rejected "failed to fetch the wasm binary")
              (Rejected (SourceUnreachable "missing.gpkg" 404 "Not Found"))
              started)
    as (_ & Hengine & _); [reflexivity | reflexivity | reflexivity |].
  apply Hengine; [reflexivity | discriminate].
Defined.

Lemma readRawGpkg_inputs_witness :
  let E := sample_env (package 27700 None) in
  fst (readRawGpkg E (InString "missing.gpkg") fresh_world) =
    Rejected (SourceUnreachable "missing.gpkg" 404 "Not Found") ∧
  snd (readRawGpkg E (InString "missing.gpkg") fresh_world) =
    emit (EvFetch "missing.gpkg") fresh_world.
Proof.
  intros E.
  destruct (readRawGpkg_inputs E) as (_ & _ & _ & Hurl).
  destruct (Hurl (InString "missing.gpkg") "missing.gpkg" fresh_world)
    as [Hfetched Hresp]; [by left|].
  split; [|exact Hfetched].
  destruct (Hresp {| ok := false; status := 404; statusText := "Not Found";
                     body := sample_body |}) as [_ Hnot_ok]; [reflexivity|].
  destruct Hnot_ok as [Hrej _]; [reflexivity | exact Hrej].
Defined.

(** ** The catalog reader *)

Lemma catalog_rows_inv remaining failure acc w tables w' :
  while_step catalog_sql catalog_row remaining failure acc w =
    (inr tables, w') →
  failure = None ∧ ∃ new, tables = acc ++ new ∧ Forall2 describes remaining new.
Proof.
  revert acc w. induction remaining as [|row rest IH]; intros acc w Hrun.
  - simpl in Hrun. unfold mbind, M_bind, tell in Hrun.
    destruct failure; [discriminate|]. injection Hrun as <- _.
    split; [done|]. exists []. by rewrite app_nil_r.
  - simpl in Hrun. unfold mbind, M_bind, tell, catalog_row in Hrun.
    destruct (toString_method (at_index row 1)) as [e|srs] eqn:Hsrs;
      [discriminate|].
    simpl in Hrun. apply IH in Hrun as (Hnone & new & -> & Hnew).
    split; [done|]. eexists (_ :: new).
    rewrite <- app_assoc. split; [done|]. by constructor.
Qed.

Lemma extract_catalog_inv bytes sqlWasm w db tables w' :
  extract_catalog bytes sqlWasm w = (inr (db, tables), w') →
  sqlWasm bytes = inr db ∧
  ∃ stmt, db catalog_sql = inr stmt ∧ failure stmt = None ∧
          Forall2 describes (rows stmt) tables.
Proof.
  unfold extract_catalog, try_catch, open_and_list, prepare.
  unfold mbind, M_bind, tell. intros Hrun.
  destruct (sqlWasm bytes) as [shown|db'] eqn:Hopen; [discriminate|].
  simpl in Hrun.
  destruct (db' catalog_sql) as [shown|stmt] eqn:Hprep; [discriminate|].
  simpl in Hrun.
  destruct (while_step _ _ _ _ _ _) as [[e|found] w1] eqn:Hloop;
    [discriminate|].
  injection Hrun as -> -> _.
  apply catalog_rows_inv in Hloop as (Hnone & new & -> & Hnew).
  split; [done|]. by exists stmt.
Qed.

Lemma style_rows_inv remaining failure acc w slds w' :
  while_step styles_sql style_row remaining failure acc w = (inr slds, w') →
  failure = None ∧
  slds = foldl (λ m row, <[(style_pair row).1 := (style_pair row).2]> m)
           acc remaining.
Proof.
  revert acc w. induction remaining as [|row rest IH]; intros acc w Hrun.
  - simpl in Hrun. unfold mbind, M_bind, tell in Hrun.
    destruct failure; [discriminate|]. by injection Hrun as <- _.
  - simpl in Hrun. unfold mbind, M_bind, tell, style_row in Hrun.
    simpl in Hrun. by apply IH in Hrun.
Qed.

Lemma styles_lookup (remaining : list (list jsval)) (acc : gmap string jsval)
    (k : string) :
  foldl (λ m row, <[(style_pair row).1 := (style_pair row).2]> m)
    acc remaining !! k =
  match last (filter (λ kv, kv.1 = k) (style_pair <$> remaining)) with
  | Some kv => Some kv.2
  | None => acc !! k
  end.
Proof.
  induction remaining as [|row rest IH] using rev_ind; [done|].
  rewrite foldl_snoc, fmap_app, filter_app.
  change (style_pair <$> [row]) with [style_pair row].
  rewrite filter_cons, filter_nil.
  destruct (decide ((style_pair row).1 = k)) as [Heq|Hne].
  - rewrite last_snoc, Heq. apply lookup_insert_eq.
  - rewrite app_nil_r, lookup_insert_ne by done. apply IH.
Qed.

Lemma styles_closed_form (remaining : list (list jsval)) :
  foldl (λ m row, <[(style_pair row).1 := (style_pair row).2]> m)
    (∅ : gmap string jsval) remaining =
  list_to_map (reverse (style_pair <$> remaining)).
Proof.
  induction remaining as [|row rest IH] using rev_ind; [done|].
  rewrite foldl_snoc, fmap_app, reverse_app.
  change (reverse (style_pair <$> [row])) with [style_pair row].
  by rewrite IH.
Qed.

Lemma extract_styles_inv db w slds w' :
  extract_styles db w = (inr slds, w') →
  ∃ probe,
    db probe_sql = inr probe ∧
    (rows probe = [] → slds = ∅) ∧
    (rows probe ≠ [] →
     ∃ stmt,
       db styles_sql = inr stmt ∧ failure stmt = None ∧
       slds = foldl (λ m row, <[(style_pair row).1 := (style_pair row).2]> m)
                ∅ (rows stmt)).
Proof.
  unfold extract_styles, prepare, step_once. unfold mbind, M_bind, tell.
  intros Hrun.
  destruct (db probe_sql) as [shown|probe] eqn:Hprobe; [discriminate|].
  simpl in Hrun. exists probe. split; [done|].
  destruct (rows probe) as [|row rest].
  - destruct (failure probe); [discriminate|]. simpl in Hrun.
    injection Hrun as <- _. split; [done|]. by intros [].
  - simpl in Hrun. split; [done|]. intros _.
    destruct (db styles_sql) as [shown|stmt] eqn:Hstyles; [discriminate|].
    simpl in Hrun. apply style_rows_inv in Hrun as [Hnone ->].
    by exists stmt.
Qed.

Lemma extract_styles_absent db probe w :
  db probe_sql = inr probe → rows probe = [] → failure probe = None →
  extract_styles db w =
    (inr ∅, extend w [EvPrepare probe_sql; EvStep probe_sql]).
Proof.
  intros Hprobe Hrows Hnone.
  unfold extract_styles, prepare, step_once. unfold mbind, M_bind, tell.
  rewrite Hprobe. simpl. rewrite Hrows, Hnone. simpl.
  unfold emit, extend. simpl. by rewrite <- app_assoc.
Qed.

Lemma extract_styles_unreadable db probe shown w :
  db probe_sql = inr probe → rows probe ≠ [] → db styles_sql = inl shown →
  extract_styles db w =
    (inl (External shown),
     extend w [EvPrepare probe_sql; EvStep probe_sql; EvPrepare styles_sql]).
Proof.
  intros Hprobe Hfound Hstyles.
  unfold extract_styles, prepare, step_once. unfold mbind, M_bind, tell.
  rewrite Hprobe. simpl.
  destruct (rows probe) as [|row rest]; [done|]. simpl.
  rewrite Hstyles. simpl. unfold extend, emit. simpl.
  by rewrite <- !app_assoc.
Qed.

(** ** The table materializer *)

Lemma NoDup_fmap_eq {A B : Type} (f : A → B) (l : list A) (x y : A) :
  NoDup (f <$> l) → x ∈ l → y ∈ l → f x = f y → x = y.
Proof.
  induction l as [|a l IH]; intros Hnd Hx Hy Hf; [by inversion Hx|].
  rewrite fmap_cons in Hnd. apply NoDup_cons in Hnd as [Hnotin Hnd].
  apply elem_of_cons in Hx as [->|Hx], Hy as [->|Hy]; [done | | | by apply IH].
  - exfalso. apply Hnotin. rewrite Hf. by apply list_elem_of_fmap_2.
  - exfalso. apply Hnotin. rewrite <- Hf. by apply list_elem_of_fmap_2.
Qed.

Lemma setProperties_inv decoded properties f :
  setProperties decoded properties = inr f →
  feature_properties f = properties ∧
  match properties !! "geometry" with
  | None => feature_geometry f = Decoded decoded
  | Some v => js_truthy v = false ∧ feature_geometry f = Overwritten v
  end.
Proof.
  unfold setProperties. destruct (properties !! "geometry") as [v|].
  - destruct (js_truthy v); [discriminate|]. by intros [= <-].
  - by intros [= <-].
Qed.

Lemma setProperties_errors decoded properties e :
  setProperties decoded properties = inl e →
  e = RuntimeTypeError "target.addEventListener is not a function" ∧
  ∃ v, properties !! "geometry" = Some v ∧ js_truthy v = true.
Proof.
  unfold setProperties. destruct (properties !! "geometry") as [v|];
    [|discriminate].
  destruct (js_truthy v) eqn:Htruthy; [|discriminate].
  intros [= <-]. split; [done|]. by exists v.
Qed.

Section Materializer.

Variable E : environment.

Lemma feature_rows_inv sql names table proj remaining failure acc w vs w' :
  while_step sql (feature_row E names table proj) remaining failure acc w =
    (inr vs, w') →
  failure = None ∧
  source_properties vs = source_properties acc ∧
  ∃ new,
    features vs = features acc ++ new ∧
    length new = length remaining ∧
    Forall (λ f, feature_properties f !! geometry_key table = None) new.
Proof.
  revert acc w. induction remaining as [|row rest IH]; intros acc w Hrun.
  - simpl in Hrun. unfold mbind, M_bind, tell in Hrun.
    destruct failure; [discriminate|]. injection Hrun as <- _.
    repeat split. exists []. by rewrite app_nil_r.
  - simpl in Hrun. unfold feature_row, of_result in Hrun.
    unfold mbind, M_bind, tell, mret, M_ret, throw in Hrun.
    destruct (parseGpkgGeom _) as [e|featureWkb]; [discriminate|].
    destruct (readFeatures E _ _ _); [discriminate|].
    destruct (setProperties _ _) as [e|f] eqn:Hset; [discriminate|].
    apply setProperties_inv in Hset as [Hbag _].
    apply IH in Hrun as (Hnone & Hprops & new & Hnew & Hlen & Hall).
    simpl in Hprops, Hnew. repeat split; [done..|].
    exists (f :: new). rewrite Hnew, <- app_assoc.
    split; [done|]. split; [simpl; by rewrite Hlen|].
    constructor; [|done]. rewrite Hbag. apply lookup_delete_eq.
Qed.

Lemma process_table_inv db proj table data w data' w' :
  process_table E db proj table data w = (inr data', w') →
  ol_proj_get E (source_projection table) = true ∧
  ∃ vs, data' = <[table_key table := vs]> data ∧ materializes table vs.
Proof.
  unfold process_table, proj_get, prepare. unfold mbind, M_bind, tell.
  simpl. intros Hrun. fold (source_projection table) in Hrun.
  destruct (ol_proj_get E (source_projection table)); [|discriminate].
  split; [done|]. simpl in Hrun.
  destruct (db (table_sql (table_name table))) as [shown|stmt];
    [discriminate|].
  simpl in Hrun.
  destruct (while_step _ _ _ _ _ _) as [[e|vs] w1] eqn:Hloop;
    [discriminate|].
  injection Hrun as <- _.
  apply feature_rows_inv in Hloop as (_ & Hprops & new & Hnew & _ & Hall).
  eexists. split; [done|]. split; simpl.
  - apply lookup_insert_eq.
  - by rewrite Hnew.
Qed.

Lemma process_tables_inv db proj tables data w data' w' :
  process_tables E db proj tables data w = (inr data', w') →
  Forall (λ table, ol_proj_get E (source_projection table) = true) tables ∧
  dom data' = dom data ∪ list_to_set (table_key <$> tables) ∧
  ∀ t vs,
    data' !! t = Some vs →
    data !! t = Some vs ∨
    ∃ table, table ∈ tables ∧ table_key table = t ∧ materializes table vs.
Proof.
  revert data w. induction tables as [|table rest IH]; intros data w Hrun.
  - injection Hrun as <- _. split; [done|].
    split; [simpl; by rewrite (right_id_L ∅ (∪)) | by left].
  - simpl in Hrun. unfold mbind, M_bind in Hrun.
    destruct (process_table E db proj table data w) as [[e|data1] w1]
      eqn:Htable; [discriminate|].
    apply process_table_inv in Htable as (Hreg & vs1 & -> & Hvs1).
    apply IH in Hrun as (Hregs & Hdom & Hlook).
    split; [by constructor|]. split.
    + rewrite Hdom, dom_insert_L, fmap_cons, list_to_set_cons.
      by rewrite (comm_L (∪) {[table_key table]} (dom data)),
        <- (assoc_L (∪)).
    + intros t vs Hin. apply Hlook in Hin as [Hin|(table' & ? & ? & ?)].
      * destruct (decide (table_key table = t)) as [<-|Hne].
        -- rewrite lookup_insert_eq in Hin. injection Hin as <-.
           right. exists table. split; [by left | done].
        -- rewrite lookup_insert_ne in Hin by done. by left.
      * right. exists table'. split; [by right | done].
Qed.

Lemma process_tables_app db proj pre post data w :
  process_tables E db proj (pre ++ post) data w =
  match process_tables E db proj pre data w with
  | (inl e, w1) => (inl e, w1)
  | (inr data1, w1) => process_tables E db proj post data1 w1
  end.
Proof.
  revert data w. induction pre as [|table rest IH]; intros data w; [done|].
  simpl. unfold mbind, M_bind.
  destruct (process_table E db proj table data w) as [[e|data1] w1];
    [done | apply IH].
Qed.

Lemma process_tables_untouched db proj tables data w data' w' t :
  process_tables E db proj tables data w = (inr data', w') →
  t ∉ table_key <$> tables →
  data' !! t = data !! t.
Proof.
  revert data w. induction tables as [|table rest IH]; intros data w Hrun Hnot.
  - by injection Hrun as <- _.
  - simpl in Hrun. unfold mbind, M_bind in Hrun.
    destruct (process_table E db proj table data w) as [[e|data1] w1]
      eqn:Htable; [discriminate|].
    apply process_table_inv in Htable as (_ & vs1 & -> & _).
    rewrite fmap_cons in Hnot. apply not_elem_of_cons in Hnot as [Hne Hnot].
    rewrite (IH _ _ Hrun Hnot). by apply lookup_insert_ne.
Qed.

(** Of the tables of one name the last one decides the entry. *)
Lemma process_tables_last db proj pre table post data0 w data w' :
  process_tables E db proj (pre ++ table :: post) data0 w = (inr data, w') →
  table_key table ∉ table_key <$> post →
  ∃ vs, data !! table_key table = Some vs ∧ materializes table vs.
Proof.
  intros Hrun Hlast. rewrite process_tables_app in Hrun.
  destruct (process_tables E db proj pre data0 w) as [[e|data1] w1];
    [discriminate|].
  simpl in Hrun. unfold mbind, M_bind in Hrun.
  destruct (process_table E db proj table data1 w1) as [[e|data2] w2]
    eqn:Htable; [discriminate|].
  apply process_table_inv in Htable as (_ & vs & -> & Hmat).
  exists vs. rewrite (process_tables_untouched _ _ _ _ _ _ _ _ Hrun Hlast).
  split; [apply lookup_insert_eq | done].
Qed.

Lemma runs_proj_get (code : string) :
  runs (proj_get E code) (inr (ol_proj_get E code)) [EvProjGet code].
Proof. by intros w. Qed.

Lemma runs_prepare (db : database) (sql : string) :
  runs (prepare db sql)
       (match db sql with
        | inl shown => inl (External shown)
        | inr stmt => inr stmt
        end)
       [EvPrepare sql].
Proof.
  unfold prepare.
  change [EvPrepare sql] with ([EvPrepare sql] ++ []).
  eapply runs_bind; [apply runs_tell | apply runs_of_external].
Qed.

Lemma process_table_checks_first db proj table data :
  ∃ r rest,
    runs (process_table E db proj table data) r
         (EvProjGet (source_projection table) :: rest) ∧
    (ol_proj_get E (source_projection table) = false →
     rest = [] ∧
     r = inl (UnknownSourceProjection (source_projection table)
                (table_key table))) ∧
    (ol_proj_get E (source_projection table) = true →
     ∃ more, rest = EvPrepare (table_sql (table_name table)) :: more).
Proof.
  unfold process_table. cbv zeta.
  fold (source_projection table). fold (table_key table).
  pose proof (runs_proj_get (source_projection table)) as Hcheck.
  destruct (ol_proj_get E (source_projection table)).
  - pose proof (runs_prepare db (table_sql (table_name table))) as Hprep.
    destruct (db (table_sql (table_name table))) as [shown|stmt].
    + eexists _, [_]. split; [|split; [done | by eexists]].
      eapply (runs_bind _ _ _ _ [_] [_]); [exact Hcheck|]. simpl.
      by apply runs_bind_throw.
    + match goal with
      | |- context [prepare _ _ ≫= ?k] =>
          assert (writer (k stmt)) as (r & evs & Hrest)
      end.
      { apply writer_bind; [|intros; apply writer_ret].
        apply writer_while_step. intros. apply writer_feature_row. }
      exists r, (EvPrepare (table_sql (table_name table)) :: evs).
      split; [|split; [done | by eexists]].
      eapply (runs_bind _ _ _ _ [_] (_ :: _)); [exact Hcheck|]. simpl.
      eapply (runs_bind _ _ _ _ [_]); [exact Hprep | exact Hrest].
  - exists (inl (UnknownSourceProjection (source_projection table)
                   (table_key table))), [].
    split; [|split; [done | discriminate]].
    eapply (runs_bind _ _ _ _ [_] []); [exact Hcheck|]. simpl.
    apply runs_throw.
Qed.

End Materializer.

(** ** The load result *)

Section LoadResult.

Variable E : environment.

Lemma processGpkgData_inv name bytes sqlWasm proj w data slds w' :
  processGpkgData E name bytes sqlWasm proj w = (inr (data, slds), w') →
  ∃ db tables w0 w1,
    extract_catalog bytes sqlWasm w = (inr (db, tables), w0) ∧
    extract_styles db w0 = (inr slds, w1) ∧
    process_tables E db proj tables ∅ w1 = (inr data, w').
Proof.
  unfold processGpkgData. unfold mbind, M_bind. intros Hrun.
  destruct (extract_catalog bytes sqlWasm w) as [[e|[db tables]] w0]
    eqn:Hcat; [discriminate|].
  destruct (extract_styles db w0) as [[e|slds'] w1] eqn:Hstyles;
    [discriminate|].
  destruct (process_tables E db proj tables ∅ w1) as [[e|data'] w2]
    eqn:Htabs; [discriminate|].
  injection Hrun as -> -> ->. by exists db, tables, w0, w1.
Qed.

(** C4, as the code has it.  After a successful load the keys of the
    feature-collection mapping are exactly the table names of the rows the
    catalog query returned, one key per row when the names are distinct;
    the collection under a key carries [origProjection] equal to "EPSG:"
    followed by the srs id of a catalog row of that name, and none of its
    features has that row's geometry column among its attributes.  That
    row is the last catalog row of the name, hence the row of the name
    when names are distinct. *)
Theorem processGpkgData_feature_collections
    name bytes sqlWasm proj w data slds w' :
  processGpkgData E name bytes sqlWasm proj w = (inr (data, slds), w') →
  ∃ db stmt tables,
    sqlWasm bytes = inr db ∧
    db catalog_sql = inr stmt ∧
    Forall2 describes (rows stmt) tables ∧
    dom data = list_to_set (table_key <$> tables) ∧
    (∀ t vs,
       data !! t = Some vs →
       ∃ table,
         table ∈ tables ∧ table_key table = t ∧
         source_properties vs !! "origProjection" =
           Some ("EPSG:" +:+ srs_id table) ∧
         Forall (λ f, feature_properties f !! geometry_key table = None)
           (features vs)) ∧
    (∀ pre table post,
       tables = pre ++ table :: post →
       table_key table ∉ table_key <$> post →
       ∃ vs,
         data !! table_key table = Some vs ∧
         source_properties vs !! "origProjection" =
           Some ("EPSG:" +:+ srs_id table) ∧
         Forall (λ f, feature_properties f !! geometry_key table = None)
           (features vs)) ∧
    (NoDup (table_key <$> tables) →
     size data = length (rows stmt) ∧
     ∀ table,
       table ∈ tables →
       ∃ vs,
         data !! table_key table = Some vs ∧
         source_properties vs !! "origProjection" =
           Some ("EPSG:" +:+ srs_id table) ∧
         Forall (λ f, feature_properties f !! geometry_key table = None)
           (features vs)).
Proof.
  intros Hrun.
  apply processGpkgData_inv in Hrun as (db & tables & w0 & w1 & Hcat & _ & Htabs).
  apply extract_catalog_inv in Hcat as (Hopen & stmt & Hprep & _ & Hrows).
  pose proof Htabs as Hloop.
  apply process_tables_inv in Htabs as (_ & Hdom & Hlook).
  rewrite dom_empty_L, (left_id_L ∅ (∪)) in Hdom.
  assert (∀ t vs, data !! t = Some vs →
            ∃ table, table ∈ tables ∧ table_key table = t ∧
                     materializes table vs) as Hkeys.
  { intros t vs Hin. by apply Hlook in Hin as [Hin|Hin]. }
  exists db, stmt, tables. do 4 (split; [done|]). split; [exact Hkeys|].
  split.
  { intros pre table post -> Hlast.
    exact (process_tables_last E _ _ _ _ _ _ _ _ _ Hloop Hlast). }
  intros Hnd. split.
  - rewrite <- size_dom, Hdom, size_list_to_set by done.
    rewrite length_fmap. symmetry. by eapply Forall2_length.
  - intros table Hin.
    assert (table_key table ∈ dom data) as Hkey.
    { rewrite Hdom. apply elem_of_list_to_set. by apply list_elem_of_fmap_2. }
    apply elem_of_dom in Hkey as [vs Hvs]. exists vs. split; [done|].
    destruct (Hkeys _ _ Hvs) as (table' & Hin' & Hsame & Hmat).
    by rewrite <- (NoDup_fmap_eq table_key tables table' table Hnd Hin'
                      Hin Hsame).
Qed.

(** C5. When the loop over the feature tables reaches a table, the first
    thing it does is look the table's own "EPSG:" code up in the
    projection registry.  If the code is registered the next call prepares
    the query on the table's rows; if it is not, nothing else is done: the
    loop, and with it the load, fails with the unknown source projection
    error, whose message contains both the code and the table name. *)
Theorem source_projection_checked_per_table
    db proj pre table post data0 w data1 w1 :
  process_tables E db proj pre data0 w = (inr data1, w1) →
  ∃ r rest,
    process_tables E db proj (pre ++ table :: post) data0 w =
      (r, extend w1 (EvProjGet ("EPSG:" +:+ srs_id table) :: rest)) ∧
    (ol_proj_get E ("EPSG:" +:+ srs_id table) = true →
     ∃ more, rest = EvPrepare (table_sql (table_name table)) :: more) ∧
    (ol_proj_get E ("EPSG:" +:+ srs_id table) = false →
     let e := UnknownSourceProjection ("EPSG:" +:+ srs_id table)
                (js_to_string (table_name table)) in
     rest = [] ∧ r = inl e ∧
     (∃ a b c,
        message e =
        a +:+ ("EPSG:" +:+ srs_id table) +:+ b +:+
        js_to_string (table_name table) +:+ c) ∧
     (∀ name bytes sqlWasm w00 w0 slds,
        data0 = ∅ →
        extract_catalog bytes sqlWasm w00 =
          (inr (db, pre ++ table :: post), w0) →
        extract_styles db w0 = (inr slds, w) →
        processGpkgData E name bytes sqlWasm proj w00 =
          (inl e, extend w1 [EvProjGet ("EPSG:" +:+ srs_id table)]))).
Proof.
  intros Hpre. fold (source_projection table). fold (table_key table).
  destruct (process_table_checks_first E db proj table data1)
    as (r1 & rest1 & Hhead & Hfalse & Htrue).
  assert (∃ r rest,
            process_tables E db proj (table :: post) data1 w1 =
              (r, extend w1 (EvProjGet (source_projection table) :: rest)) ∧
            (rest1 = [] → ∀ e, r1 = inl e → rest = [] ∧ r = inl e) ∧
            ∃ tail, rest = rest1 ++ tail) as (r & rest & Hloop & Hstop & Hext).
  { simpl. unfold mbind, M_bind. rewrite (Hhead w1).
    destruct r1 as [e|data2].
    - exists (inl e), rest1. split; [done|]. split; [by intros ? ? [= <-]|].
      exists []. by rewrite app_nil_r.
    - destruct (writer_process_tables E db proj post data2)
        as (r & evs & Hpost).
      exists r, (rest1 ++ evs). rewrite Hpost, extend_extend.
      split; [done|]. split; [done | by exists evs]. }
  exists r, rest. rewrite process_tables_app, Hpre. split; [exact Hloop|].
  split.
  - intros Hreg. destruct (Htrue Hreg) as [more ->].
    destruct Hext as [tail ->]. by eexists.
  - intros Hreg. destruct (Hfalse Hreg) as [-> ->].
    destruct (Hstop eq_refl _ eq_refl) as [-> ->].
    cbv zeta. split; [done|]. split; [done|]. split.
    + exists "Missing data projection [", ("] for table " +:+ dq),
        (dq +:+ " - can be added beforehand with ol/proj/proj4").
      unfold message. by rewrite !append_assoc.
    + intros name bytes sqlWasm w00 w0 slds -> Hcat Hstyles.
      unfold processGpkgData. unfold mbind, M_bind.
      rewrite Hcat. cbn iota beta. rewrite Hstyles. cbn iota beta.
      by rewrite process_tables_app, Hpre, Hloop.
Qed.

(** C6, as the code has it.  The loader asks the contents table
    [gpkg_contents] for a row whose table name is [layer_styles]; it never
    asks whether such a table exists.  When the contents list no such row,
    the style mapping is empty and no error arises from the styles: the
    table [layer_styles] is not queried, whether the package holds it or
    not.  When the contents list one and the query on [layer_styles]
    fails, as it does when the table is missing, the load fails with the
    engine's error before any feature table is read.  After a successful
    load whose contents list the row, the mapping sends a name to the
    style of the last row selected with that name and holds no other key;
    it is exactly the set of the selected (name, style) pairs when no two
    rows share a name. *)
Theorem processGpkgData_style_mapping :
  (∀ db probe w,
     db probe_sql = inr probe → rows probe = [] → failure probe = None →
     extract_styles db w =
       (inr ∅, extend w [EvPrepare probe_sql; EvStep probe_sql])) ∧
  (∀ name bytes sqlWasm proj w db tables w0 probe shown,
     extract_catalog bytes sqlWasm w = (inr (db, tables), w0) →
     db probe_sql = inr probe → rows probe ≠ [] →
     db styles_sql = inl shown →
     processGpkgData E name bytes sqlWasm proj w =
       (inl (External shown),
        extend w0
          [EvPrepare probe_sql; EvStep probe_sql; EvPrepare styles_sql])) ∧
  (∀ name bytes sqlWasm proj w data slds w',
     processGpkgData E name bytes sqlWasm proj w = (inr (data, slds), w') →
     ∃ db probe,
       sqlWasm bytes = inr db ∧
       db probe_sql = inr probe ∧
       (rows probe = [] → slds = ∅) ∧
       (rows probe ≠ [] →
        ∃ stmt,
          db styles_sql = inr stmt ∧
          (∀ k, slds !! k =
                snd <$> last (filter (λ kv, kv.1 = k)
                                (style_pair <$> rows stmt))) ∧
          (NoDup ((style_pair <$> rows stmt).*1) →
           ∀ k v, slds !! k = Some v ↔ (k, v) ∈ style_pair <$> rows stmt))).
Proof.
  split; [exact extract_styles_absent|]. split.
  { intros name bytes sqlWasm proj w db tables w0 probe shown
      Hcat Hprobe Hfound Hstyles.
    pose proof (extract_styles_unreadable db probe shown w0
                  Hprobe Hfound Hstyles) as Hfail.
    unfold processGpkgData. unfold mbind, M_bind.
    rewrite Hcat. cbn iota beta. by rewrite Hfail. }
  intros name bytes sqlWasm proj w data slds w' Hrun.
  apply processGpkgData_inv in Hrun
    as (db & tables & w0 & w1 & Hcat & Hstyles & _).
  apply extract_catalog_inv in Hcat as (Hopen & _).
  apply extract_styles_inv in Hstyles as (probe & Hprobe & Hnone & Hsome).
  exists db, probe. do 3 (split; [done|]).
  intros Hfound. destruct (Hsome Hfound) as (stmt & Hprep & _ & ->).
  exists stmt. split; [done|]. split.
  - intros k. rewrite styles_lookup, lookup_empty.
    by destruct (last _).
  - intros Hnd k v. rewrite styles_closed_form. symmetry.
    rewrite <- elem_of_reverse.
    apply elem_of_list_to_map. by rewrite fmap_reverse, reverse_Permutation.
Qed.

End LoadResult.

(** ** The example package *)

Lemma sample_load_succeeds :
  sample_load = (inr sample_loaded, snd sample_load).
Proof. vm_compute. reflexivity. Qed.

Lemma restyled_load_succeeds :
  restyled_load = (inr restyled_loaded, snd restyled_load).
Proof. vm_compute. reflexivity. Qed.

Example sample_keys :
  dom sample_loaded.1 = {[ "roads"; "buildings" ]}.
Proof. vm_compute. reflexivity. Qed.

Example sample_projections :
  (λ vs, source_properties vs !! "origProjection") <$> sample_loaded.1 =
  {[ "roads" := Some "EPSG:4326"; "buildings" := Some "EPSG:27700" ]}.
Proof. vm_compute. reflexivity. Qed.

Example sample_style_mapping :
  sample_loaded.2 = {[ "roads" := JString "<sld/>" ]}.
Proof. vm_compute. reflexivity. Qed.

Example sample_end_to_end :
  fst (loadGpkg (sample_env sample_db) (InString "roads.gpkg") "EPSG:3857"
         (ready_world sample_db)) =
  inr (Fulfilled sample_loaded).
Proof. vm_compute. reflexivity. Qed.

Lemma processGpkgData_feature_collections_witness :
  sample_load = (inr sample_loaded, snd sample_load) ∧
  ∃ tables,
    dom sample_loaded.1 = list_to_set (table_key <$> tables) ∧
    Forall (λ table,
              ∃ vs, sample_loaded.1 !! table_key table = Some vs ∧
                    source_properties vs !! "origProjection" =
                      Some ("EPSG:" +:+ srs_id table))
           tables.
Proof.
  split; [exact sample_load_succeeds|].
  destruct (processGpkgData_feature_collections (sample_env sample_db)
              "roads.gpkg" sample_bytes (sample_engine sample_db) "EPSG:3857"
              fresh_world sample_loaded.1 sample_loaded.2 (snd sample_load))
    as (db & stmt & tables & Hopen & Hprep & Hrows & Hdom & _ & _ & Hdistinct).
  { vm_compute. reflexivity. }
  exists tables. split; [exact Hdom|].
  injection Hopen as <-. injection Hprep as <-.
  apply Forall2_cons_inv_l in Hrows as (roads & rest & Hroads & Hrows & ->).
  apply Forall2_cons_inv_l in Hrows as (blds & rest' & Hblds & Hrows & ->).
  apply Forall2_nil_inv_l in Hrows as ->.
  destruct roads as [name1 srs1 col1], blds as [name2 srs2 col2].
  destruct Hroads as (Hn1 & Hs1 & Hc1), Hblds as (Hn2 & Hs2 & Hc2).
  simpl in Hn1, Hs1, Hc1, Hn2, Hs2, Hc2.
  injection Hs1 as <-. injection Hs2 as <-. subst name1 col1 name2 col2.
  destruct Hdistinct as [_ Heach].
  { apply (bool_decide_unpack _). by vm_compute. }
  apply Forall_forall. intros table Hin.
  destruct (Heach table Hin) as (vs & Hvs & Hproj & _). by exists vs.
Defined.

Lemma twin_load_succeeds :
  twin_load = (inr twin_loaded, snd twin_load).
Proof. vm_compute. reflexivity. Qed.

(** C4, as stated, fails when two catalog rows share a table name.  The
    catalog of [twin_db] returns (roads, 4326, geom) and (roads, 3857,
    geom2); the load succeeds with one key for the two rows, and the
    collection under it is tagged EPSG:3857, not the EPSG:4326 of the first
    row, and its feature retains the first row's geometry column [geom]. *)
Lemma processGpkgData_feature_collections_counterexample :
  twin_load = (inr twin_loaded, snd twin_load) ∧
  twin_db catalog_sql =
    inr {| columns := ["table_name"; "srs_id"; "column_name"];
           rows := [[JString "roads"; JNumber 4326; JString "geom"];
                    [JString "roads"; JNumber 3857; JString "geom2"]];
           failure := None |} ∧
  dom twin_loaded.1 = {[ "roads" ]} ∧
  size twin_loaded.1 ≠ 2%nat ∧
  ∃ vs f,
    twin_loaded.1 !! "roads" = Some vs ∧
    source_properties vs !! "origProjection" = Some "EPSG:3857" ∧
    source_properties vs !! "origProjection" ≠ Some "EPSG:4326" ∧
    features vs = [f] ∧
    feature_properties f !! "geom" = Some (JBytes sample_cell).
Proof.
  split; [exact twin_load_succeeds|]. split; [reflexivity|].
  split; [vm_compute; reflexivity|]. split; [vm_compute; discriminate|].
  eexists _, _. split; [vm_compute; reflexivity|].
  split; [vm_compute; reflexivity|]. split; [vm_compute; discriminate|].
  split; [reflexivity | vm_compute; reflexivity].
Qed.

Lemma source_projection_checked_per_table_witness :
  let E := sample_env lambert_db in
  let reached :=
    process_tables E lambert_db "EPSG:3857" [roads_table] ∅ fresh_world in
  (∃ data1, reached = (inr data1, snd reached)) ∧
  process_tables E lambert_db "EPSG:3857"
    [roads_table; buildings_table "2154"] ∅ fresh_world =
    (inl (UnknownSourceProjection "EPSG:2154" "buildings"),
     extend (snd reached) [EvProjGet "EPSG:2154"]).
Proof.
  intros E reached.
  assert (∃ data1, reached = (inr data1, snd reached)) as [data1 Hpre].
  { eexists. vm_compute. reflexivity. }
  split; [by exists data1|].
  destruct (source_projection_checked_per_table E lambert_db "EPSG:3857"
              [roads_table] (buildings_table "2154") [] ∅ fresh_world
              data1 (snd reached) Hpre)
    as (r & rest & Hrun & _ & Hstop).
  destruct Hstop as (-> & -> & _); [reflexivity | exact Hrun].
Defined.

Lemma processGpkgData_style_mapping_witness :
  sample_loaded.2 !! "roads" = Some (JString "<sld/>") ∧
  (∀ k v, sample_loaded.2 !! k = Some v ↔
          (k, v) ∈ style_pair <$> sample_styles).
Proof.
  destruct (processGpkgData_style_mapping (sample_env sample_db))
    as (_ & _ & Hloaded).
  destruct (Hloaded "roads.gpkg" sample_bytes (sample_engine sample_db)
              "EPSG:3857" fresh_world sample_loaded.1 sample_loaded.2
              (snd sample_load))
    as (db & probe & Hopen & Hprobe & _ & Hfound).
  { vm_compute. reflexivity. }
  injection Hopen as <-. injection Hprobe as <-.
  destruct Hfound as (stmt & Hprep & Hlast & Hexact); [discriminate|].
  injection Hprep as <-. split.
  - exact (Hlast "roads").
  - apply Hexact. apply (bool_decide_unpack _). by vm_compute.
Defined.

Lemma unlisted_styles_load_succeeds :
  ∃ data, unlisted_styles_load = (inr (data, ∅), snd unlisted_styles_load).
Proof. eexists. vm_compute. reflexivity. Qed.

(** C6, as stated, fails in three ways.  When two selected rows share a
    table name the mapping is not the set of the selected pairs: of (roads,
    <a/>) and (roads, <b/>) it keeps the second only.  When the package
    holds a table [layer_styles] that its contents do not list, the table
    exists and the mapping is empty all the same.  When the contents list
    [layer_styles] and there is no such table, its absence is an error:
    the load fails with the engine's error. *)
Lemma processGpkgData_style_mapping_counterexample :
  (restyled_load = (inr restyled_loaded, snd restyled_load) ∧
   restyled_db probe_sql =
     inr {| columns := ["table_name"];
            rows := [[JString "layer_styles"]];
            failure := None |} ∧
   restyled_db styles_sql =
     inr {| columns := ["f_table_name"; "styleSLD"];
            rows := two_styles;
            failure := None |} ∧
   ("roads", JString "<a/>") ∈ style_pair <$> two_styles ∧
   restyled_loaded.2 !! "roads" ≠ Some (JString "<a/>") ∧
   restyled_loaded.2 = {[ "roads" := JString "<b/>" ]}) ∧
  (unlisted_styles_db styles_sql =
     inr {| columns := ["f_table_name"; "styleSLD"];
            rows := [[JString "roads"; JString "<sld/>"]];
            failure := None |} ∧
   unlisted_styles_db probe_sql =
     inr {| columns := ["table_name"]; rows := []; failure := None |} ∧
   ∃ data,
     fst unlisted_styles_load = inr (data, ∅) ∧
     (∅ : gmap string jsval) ≠ {[ "roads" := JString "<sld/>" ]}) ∧
  (broken_styles_db styles_sql = inl "no such table: layer_styles" ∧
   broken_styles_db probe_sql =
     inr {| columns := ["table_name"];
            rows := [[JString "layer_styles"]];
            failure := None |} ∧
   fst broken_styles_load = inl (External "no such table: layer_styles")).
Proof.
  split; [|split].
  - split; [exact restyled_load_succeeds|].
    split; [reflexivity|]. split; [reflexivity|].
    split; [by left|].
    split; [vm_compute; discriminate | vm_compute; reflexivity].
  - split; [reflexivity|]. split; [reflexivity|].
    destruct unlisted_styles_load_succeeds as [data Hload].
    exists data. split; [by rewrite Hload|].
    intros Hsame.
    assert ((∅ : gmap string jsval) !! "roads" =
            ({[ "roads" := JString "<sld/>" ]} : gmap string jsval)
              !! "roads") as Hlook by (by rewrite <- Hsame).
    by rewrite lookup_empty, lookup_singleton_eq in Hlook.
  - split; [reflexivity|]. split; [reflexivity|].
    vm_compute. reflexivity.
Qed.

(** * Further properties *)

(** ** The envelope parser: what the payload is and what it depends on *)

Lemma parseGpkgGeom_bytes_inv (cell payload : list byte) :
  parseGpkgGeom (JBytes cell) = inr payload →
  ∃ offset,
    wkbOffset (eFlags_of cell) = Some offset ∧ 8 ≤ offset ∧
    payload = drop (Z.to_nat offset) cell.
Proof.
  unfold parseGpkgGeom.
  destruct (wkbOffset (eFlags_of cell)) as [offset|] eqn:Hoff;
    [|discriminate].
  intros [= <-]. exists offset. split; [done|].
  pose proof (wkbOffset_values _ _ Hoff). split; [lia|].
  apply subarray_drop. lia.
Qed.

(** X1. The payload is a view on the cell: its byte [i] is the cell's byte
    [offset + i], and a cell at least [offset] bytes long is its first
    [offset] bytes followed by the payload. *)
Theorem parseGpkgGeom_payload_is_suffix (cell payload : list byte) :
  parseGpkgGeom (JBytes cell) = inr payload →
  ∃ offset : nat,
    wkbOffset (eFlags_of cell) = Some (Z.of_nat offset) ∧
    (∀ i : nat, payload !! i = cell !! (offset + i)%nat) ∧
    take offset cell ++ payload = cell.
Proof.
  intros Hparse.
  apply parseGpkgGeom_bytes_inv in Hparse as (offset & Hoff & Hpos & ->).
  exists (Z.to_nat offset). rewrite Z2Nat.id by lia.
  split; [done|]. split; [|apply take_drop].
  intros i. apply lookup_drop.
Qed.

Lemma parseGpkgGeom_payload_is_suffix_witness :
  ∃ offset : nat,
    wkbOffset (eFlags_of sample_cell) = Some (Z.of_nat offset) ∧
    (∀ i : nat,
       [x01; x01; x00; x00; x00] !! i = sample_cell !! (offset + i)%nat) ∧
    take offset sample_cell ++ [x01; x01; x00; x00; x00] = sample_cell.
Proof.
  apply (parseGpkgGeom_payload_is_suffix sample_cell). reflexivity.
Defined.

Lemma eFlags_of_bits (cell : list byte) :
  eFlags_of cell = Z.shiftr (Z.land (to_int32 (flags_of cell)) 14) 1.
Proof. unfold eFlags_of. by rewrite Z.shiftr_land. Qed.

(** X2. The parser reads nothing but bits 1 to 3 of the flags byte and
    the bytes from offset 8 on: two cells that agree on these give the
    same result, whatever their magic, version, byte-order bit, other flag
    bits and srs id. *)
Theorem parseGpkgGeom_reads_flag_bits_and_tail (cell cell' : list byte) :
  Z.land (to_int32 (flags_of cell)) 14 =
    Z.land (to_int32 (flags_of cell')) 14 →
  drop 8 cell = drop 8 cell' →
  parseGpkgGeom (JBytes cell) = parseGpkgGeom (JBytes cell').
Proof.
  intros Hbits Htail.
  assert (eFlags_of cell = eFlags_of cell') as Hflags.
  { by rewrite !eFlags_of_bits, Hbits. }
  unfold parseGpkgGeom. rewrite <- Hflags.
  destruct (wkbOffset (eFlags_of cell)) as [offset|] eqn:Hoff; [|done].
  pose proof (wkbOffset_values _ _ Hoff) as Hvalues.
  rewrite !subarray_drop by lia.
  replace (Z.to_nat offset) with (8 + (Z.to_nat offset - 8))%nat by lia.
  by rewrite <- !drop_drop, Htail.
Qed.

Lemma parseGpkgGeom_reads_flag_bits_and_tail_witness :
  parseGpkgGeom (JBytes sample_cell) = parseGpkgGeom (JBytes scrambled_cell).
Proof.
  apply parseGpkgGeom_reads_flag_bits_and_tail; reflexivity.
Defined.

(** ** Initialisation *)

Lemma calls_since_extend (w : world) (evs : list event) :
  calls_since w (extend w evs) = evs.
Proof. unfold calls_since, extend. simpl. apply drop_app_length. Qed.

Section Initialisation.

Variable E : environment.

Lemma initSqlJsWasm_returns dir w :
  fst (initSqlJsWasm E dir w) =
  initSqlJs_memoised E (default "" dir +:+ "/sql-wasm.wasm") w.
Proof. reflexivity. Qed.

Lemma initSqlJsWasm_signal dir w :
  promiseSqlWasmLoaded (snd (initSqlJsWasm E dir w)) =
  Some (fst (initSqlJsWasm E dir w)).
Proof.
  unfold initSqlJsWasm. simpl. by destruct (initSqlJs_memoised E _ _).
Qed.

Lemma initSqlJsWasm_memo dir w :
  initSqlJsPromise (snd (initSqlJsWasm E dir w)) =
  Some (fst (initSqlJsWasm E dir w)).
Proof.
  unfold initSqlJsWasm. simpl. by destruct (initSqlJs_memoised E _ _).
Qed.

Lemma initSqlJsWasm_log dir w :
  log (snd (initSqlJsWasm E dir w)) =
  log w ++
  EvInitSqlJs (default "" dir +:+ "/sql-wasm.wasm") ::
  match fst (initSqlJsWasm E dir w) with
  | Rejected reason =>
      [EvConsoleError
         (("initSqlJsWasm() unable to load SQLite JS binary " +:+
           "(sql-wasm.wasm) from URL folder:" +:+ nl +:+
           "  " +:+ default "" dir +:+ "/" +:+ nl) +:+ reason)]
  | _ => []
  end.
Proof.
  unfold initSqlJsWasm.
  change ("/" +:+ wasm_file) with "/sql-wasm.wasm". simpl.
  destruct (initSqlJs_memoised E _ _) as [| |reason]; simpl; [done | done |].
  rewrite <- app_assoc. simpl. by rewrite !append_assoc.
Qed.

(** A later call returns the promise of the call before it. *)
Lemma initSqlJsWasm_again dir1 dir2 w :
  fst (initSqlJsWasm E dir2 (snd (initSqlJsWasm E dir1 w))) =
  fst (initSqlJsWasm E dir1 w).
Proof.
  rewrite (initSqlJsWasm_returns dir2). unfold initSqlJs_memoised.
  by rewrite initSqlJsWasm_memo.
Qed.

(** X3. [initSqlJsWasm] returns, and stores in [promiseSqlWasmLoaded], the
    promise sql.js hands out: on the first call of sql.js that of the
    engine located at the given folder followed by "/sql-wasm.wasm" (at
    "/sql-wasm.wasm" when called without argument), on a later call the
    promise of the first call.  From then on [loadGpkg] never throws the
    not-initialized error, whether or not the engine has loaded, and
    returns a promise whenever the display projection is registered. *)
Theorem initSqlJsWasm_enables_loadGpkg dir w gpkgFile proj :
  let located := default "" dir +:+ "/sql-wasm.wasm" in
  let w1 := snd (initSqlJsWasm E dir w) in
  (initSqlJsPromise w = None →
   fst (initSqlJsWasm E dir w) = initSqlJs E located) ∧
  (∀ first, initSqlJsPromise w = Some first →
            fst (initSqlJsWasm E dir w) = first) ∧
  promiseSqlWasmLoaded w1 = Some (fst (initSqlJsWasm E dir w)) ∧
  fst (loadGpkg E gpkgFile proj w1) ≠ inl WasmNotInitialized ∧
  (ol_proj_get E proj = true →
   ∃ promise, fst (loadGpkg E gpkgFile proj w1) = inr promise).
Proof.
  intros located w1.
  split.
  { intros Hnone. rewrite initSqlJsWasm_returns. unfold initSqlJs_memoised.
    by rewrite Hnone. }
  split.
  { intros first Hfirst. rewrite initSqlJsWasm_returns.
    unfold initSqlJs_memoised. by rewrite Hfirst. }
  pose proof (initSqlJsWasm_signal dir w) as Hsignal.
  split; [exact Hsignal|].
  destruct (ol_proj_get E proj) eqn:Hreg.
  - subst w1. rewrite (loadGpkg_started E _ _ _ _ Hsignal Hreg). simpl.
    split; [discriminate | by eexists].
  - subst w1. rewrite (loadGpkg_unregistered E _ _ _ _ Hsignal Hreg). simpl.
    split; [discriminate | discriminate].
Qed.

(** X4. A failed engine load is deferred.  [initSqlJsWasm] still returns
    the promise; when it is observed rejected the only further call is one
    message on the console, ending with the reason, and every later load
    with a registered projection whose read has settled is rejected with
    the engine-load error carrying that reason, whatever was read.  When
    the promise returned is not rejected nothing is written on the
    console.  The promise returned is that of the engine at the located
    URL when sql.js has not been called before. *)
Theorem initSqlJsWasm_failure_is_deferred dir w :
  let located := default "" dir +:+ "/sql-wasm.wasm" in
  let w1 := snd (initSqlJsWasm E dir w) in
  (initSqlJsPromise w = None →
   fst (initSqlJsWasm E dir w) = initSqlJs E located) ∧
  (∀ reason,
     fst (initSqlJsWasm E dir w) = Rejected reason →
     (∃ head,
        calls_since w w1 =
          [EvInitSqlJs located; EvConsoleError (head +:+ reason)]) ∧
     ∀ gpkgFile proj,
       ol_proj_get E proj = true →
       fst (readRawGpkg E gpkgFile (emit (EvProjGet proj) w1)) ≠ Pending →
       fst (loadGpkg E gpkgFile proj w1) =
         inr (Rejected (WasmLoadFailed reason))) ∧
  ((∀ reason, fst (initSqlJsWasm E dir w) ≠ Rejected reason) →
   calls_since w w1 = [EvInitSqlJs located]).
Proof.
  intros located w1.
  assert (promiseSqlWasmLoaded w1 = Some (fst (initSqlJsWasm E dir w)))
    as Hsignal by apply initSqlJsWasm_signal.
  assert (∀ evs, log w1 = log w ++ evs → calls_since w w1 = evs) as Hcalls.
  { intros evs Hlog. unfold calls_since. rewrite Hlog. apply drop_app_length. }
  pose proof (initSqlJsWasm_log dir w) as Hlog.
  fold located in Hlog. fold w1 in Hlog.
  split.
  { intros Hnone. rewrite initSqlJsWasm_returns. unfold initSqlJs_memoised.
    by rewrite Hnone. }
  split.
  - intros reason Hrej. rewrite Hrej in Hlog. split.
    + eexists. by apply Hcalls.
    + intros gpkgFile proj Hreg Hsettled. rewrite Hrej in Hsignal.
      rewrite (loadGpkg_started E _ _ _ _ Hsignal Hreg). simpl.
      destruct (readRawGpkg E gpkgFile _) as [read w2]. simpl in *.
      by destruct read.
  - intros Hfine. apply Hcalls. rewrite Hlog.
    destruct (fst (initSqlJsWasm E dir w)) as [| |reason] eqn:Hstate;
      [done | done |].
    by destruct (Hfine reason).
Qed.

(** X5. The first call wins.  sql.js keeps the promise of its first call,
    so calling [initSqlJsWasm] again, with whatever folder, returns and
    stores the promise of the call before it: the module variable and
    every later load are what they were after the first call, and a second
    call with a good folder does not recover from a failed first one.  The
    second call still reports on the console, under its own folder, when
    that promise is rejected. *)
Theorem initSqlJsWasm_first_call_wins dir1 dir2 w :
  let once := snd (initSqlJsWasm E dir1 w) in
  let twice := snd (initSqlJsWasm E dir2 once) in
  fst (initSqlJsWasm E dir2 once) = fst (initSqlJsWasm E dir1 w) ∧
  promiseSqlWasmLoaded twice = promiseSqlWasmLoaded once ∧
  (∀ gpkgFile proj,
     fst (loadGpkg E gpkgFile proj twice) =
     fst (loadGpkg E gpkgFile proj once)) ∧
  (∀ reason,
     fst (initSqlJsWasm E dir1 w) = Rejected reason →
     (∃ head,
        calls_since once twice =
          [EvInitSqlJs (default "" dir2 +:+ "/sql-wasm.wasm");
           EvConsoleError (head +:+ reason)]) ∧
     ∀ gpkgFile proj,
       ol_proj_get E proj = true →
       fst (readRawGpkg E gpkgFile (emit (EvProjGet proj) twice)) ≠ Pending →
       fst (loadGpkg E gpkgFile proj twice) =
         inr (Rejected (WasmLoadFailed reason))).
Proof.
  intros once twice.
  pose proof (initSqlJsWasm_again dir1 dir2 w) as Hagain. fold once in Hagain.
  assert (promiseSqlWasmLoaded twice = promiseSqlWasmLoaded once) as Hsame.
  { subst twice. rewrite initSqlJsWasm_signal, Hagain.
    subst once. by rewrite initSqlJsWasm_signal. }
  split; [exact Hagain|]. split; [exact Hsame|]. split.
  - intros gpkgFile proj.
    destruct (loadGpkg_reads_only E gpkgFile proj (promiseSqlWasmLoaded once))
      as (r & evs & Hcall).
    by rewrite (Hcall once eq_refl), (Hcall twice Hsame).
  - intros reason Hrej. rewrite <- Hagain in Hrej.
    pose proof (initSqlJsWasm_log dir2 once) as Hlog. fold twice in Hlog.
    rewrite Hrej in Hlog. split.
    + eexists. unfold calls_since. rewrite Hlog. apply drop_app_length.
    + intros gpkgFile proj Hreg Hsettled.
      assert (promiseSqlWasmLoaded twice = Some (Rejected reason)) as Hsignal.
      { subst twice. by rewrite initSqlJsWasm_signal, Hrej. }
      rewrite (loadGpkg_started E _ _ _ _ Hsignal Hreg). simpl.
      destruct (readRawGpkg E gpkgFile _) as [read w2]. simpl in *.
      by destruct read.
Qed.

End Initialisation.

Lemma initSqlJsWasm_enables_loadGpkg_witness :
  let E := sample_env sample_db in
  promiseSqlWasmLoaded (snd (initSqlJsWasm E None fresh_world)) =
    Some (Rejected "failed to fetch the wasm binary") ∧
  ∃ promise,
    fst (loadGpkg E (InString "roads.gpkg") "EPSG:3857"
           (snd (initSqlJsWasm E None fresh_world))) = inr promise.
Proof.
  intros E.
  destruct (initSqlJsWasm_enables_loadGpkg E None fresh_world
              (InString "roads.gpkg") "EPSG:3857")
    as (_ & _ & Hsignal & _ & Hpromise).
  split; [exact Hsignal | apply Hpromise; reflexivity].
Defined.

Lemma initSqlJsWasm_failure_is_deferred_witness :
  let E := sample_env sample_db in
  fst (loadGpkg E (InString "roads.gpkg") "EPSG:3857"
         (snd (initSqlJsWasm E (Some "/nowhere") fresh_world))) =
  inr (Rejected (WasmLoadFailed "failed to fetch the wasm binary")).
Proof.
  intros E.
  destruct (initSqlJsWasm_failure_is_deferred E (Some "/nowhere")
              fresh_world) as (_ & Hfailed & _).
  destruct (Hfailed "failed to fetch the wasm binary") as [_ Hloads];
    [reflexivity|].
  apply Hloads; [reflexivity | discriminate].
Defined.

(** A failed first call is not repaired by a second call with the folder
    that holds the binary. *)
Lemma initSqlJsWasm_first_call_wins_witness :
  let E := sample_env sample_db in
  let once := failed_world sample_db in
  let twice := snd (initSqlJsWasm E (Some ".") once) in
  fst (initSqlJsWasm E (Some ".") fresh_world) =
    Fulfilled (sample_engine sample_db) ∧
  fst (initSqlJsWasm E (Some ".") once) =
    Rejected "failed to fetch the wasm binary" ∧
  fst (loadGpkg E (InString "roads.gpkg") "EPSG:3857" twice) =
    inr (Rejected (WasmLoadFailed "failed to fetch the wasm binary")).
Proof.
  intros E once twice.
  destruct (initSqlJsWasm_first_call_wins E (Some "/nowhere") (Some ".")
              fresh_world) as (Hagain & _ & _ & Hfailed).
  split; [reflexivity|]. split; [exact Hagain|].
  destruct (Hfailed "failed to fetch the wasm binary") as [_ Hloads];
    [reflexivity|].
  apply Hloads; [reflexivity | discriminate].
Defined.

(** ** What a load calls and what it throws *)

Lemma confined_weaken {A : Type} (P P' : event → Prop) (Q Q' : error → Prop)
    (m : M A) :
  (∀ ev, P ev → P' ev) → (∀ e, Q e → Q' e) →
  confined P Q m → confined P' Q' m.
Proof.
  intros HP HQ (r & evs & Hrun & Hevs & Herr). exists r, evs.
  split; [done|]. split; [by eapply Forall_impl | auto].
Qed.

Lemma confined_ret {A : Type} P Q (a : A) : confined P Q (mret a).
Proof. exists (inr a), []. split; [apply runs_ret|]. by split. Qed.

Lemma confined_throw {A : Type} (P : event → Prop) (Q : error → Prop) e :
  Q e → confined P Q (@throw A e).
Proof.
  intros HQ. exists (inl e), []. split; [apply runs_throw|].
  split; [done|]. by intros ? [= <-].
Qed.

Lemma confined_tell (P : event → Prop) Q ev : P ev → confined P Q (tell ev).
Proof.
  intros HP. exists (inr ()), [ev]. split; [apply runs_tell|].
  split; [by constructor | done].
Qed.

Lemma confined_bind {A B : Type} P Q (m : M A) (f : A → M B) :
  confined P Q m → (∀ a, confined P Q (f a)) → confined P Q (m ≫= f).
Proof.
  intros (r & evs & Hm & Hevs & Herr) Hf. destruct r as [e|a].
  - exists (inl e), evs. split; [by apply runs_bind_throw|].
    split; [done|]. intros ? [= <-]. by apply Herr.
  - destruct (Hf a) as (r' & evs' & Hfa & Hevs' & Herr').
    exists r', (evs ++ evs'). split; [by eapply runs_bind|].
    split; [by apply Forall_app | done].
Qed.

Lemma confined_try_catch {A : Type} P Q Q' (m : M A) handler :
  confined P Q' m → (∀ e, confined P Q (handler e)) →
  confined P Q (try_catch m handler).
Proof.
  intros (r & evs & Hm & Hevs & _) Hh. destruct r as [e|a].
  - destruct (Hh e) as (r' & evs' & Hhe & Hevs' & Herr').
    exists r', (evs ++ evs'). split.
    + intros w. unfold try_catch. by rewrite Hm, Hhe, extend_extend.
    + split; [by apply Forall_app | done].
  - exists (inr a), evs. split; [|done].
    intros w. unfold try_catch. by rewrite Hm.
Qed.

Lemma confined_of_external {A : Type} (P : event → Prop) (Q : error → Prop)
    (r : string + A) :
  (∀ shown, Q (External shown)) → confined P Q (of_external r).
Proof.
  intros HQ. destruct r; [by apply confined_throw | apply confined_ret].
Qed.

Lemma confined_of_result {A : Type} (P : event → Prop) (Q : error → Prop)
    (r : error + A) :
  (∀ e, r = inl e → Q e) → confined P Q (of_result r).
Proof.
  intros HQ. destruct r; [apply confined_throw; auto | apply confined_ret].
Qed.

Lemma confined_prepare (P : event → Prop) (Q : error → Prop) db sql :
  P (EvPrepare sql) → (∀ shown, Q (External shown)) →
  confined P Q (prepare db sql).
Proof.
  intros HP HQ. unfold prepare.
  apply confined_bind; [by apply confined_tell|]. intros _.
  by apply confined_of_external.
Qed.

Lemma confined_step_once (P : event → Prop) (Q : error → Prop) sql stmt :
  P (EvStep sql) → (∀ shown, Q (External shown)) →
  confined P Q (step_once sql stmt).
Proof.
  intros HP HQ. unfold step_once.
  apply confined_bind; [by apply confined_tell|]. intros _.
  destruct (rows stmt), (failure stmt);
    first [apply confined_ret | by apply confined_throw].
Qed.

Lemma confined_while_step {A : Type} (P : event → Prop) (Q : error → Prop)
    sql (body : list jsval → A → M A) remaining failure acc :
  P (EvStep sql) → (∀ shown, Q (External shown)) →
  (∀ row acc, confined P Q (body row acc)) →
  confined P Q (while_step sql body remaining failure acc).
Proof.
  intros HP HQ Hbody. revert acc.
  induction remaining as [|row rest IH]; intros acc; simpl.
  - apply confined_bind; [by apply confined_tell|]. intros _.
    destruct failure; [by apply confined_throw | apply confined_ret].
  - apply confined_bind; [by apply confined_tell|]. intros _.
    by apply confined_bind.
Qed.

Lemma parseGpkgGeom_errors v e :
  parseGpkgGeom v = inl e →
  e = InvalidEnvelopeFlag ∨ ∃ what, e = RuntimeTypeError what.
Proof.
  destruct v; simpl; try (intros [= <-]; right; by eexists).
  destruct (wkbOffset _); [discriminate|]. intros [= <-]. by left.
Qed.

Section Confinement.

Variable E : environment.

Lemma confined_extract_catalog bytes sqlWasm :
  confined engine_or_registry extraction_error
    (extract_catalog bytes sqlWasm).
Proof.
  unfold extract_catalog.
  apply (confined_try_catch _ _ (λ _, True));
    [|intros e; by apply confined_throw].
  unfold open_and_list.
  apply confined_bind; [by apply confined_tell|]. intros _.
  apply confined_bind; [by apply confined_of_external|]. intros db.
  apply confined_bind; [by apply confined_prepare|]. intros stmt.
  apply confined_bind; [|intros; apply confined_ret].
  apply confined_while_step; [done | done |]. intros row acc.
  unfold catalog_row.
  apply confined_bind; [by apply confined_of_result|]. intros srs.
  apply confined_ret.
Qed.

Lemma confined_extract_styles db :
  confined engine_or_registry extraction_error (extract_styles db).
Proof.
  unfold extract_styles.
  apply confined_bind; [by apply confined_prepare|]. intros stmt.
  apply confined_bind; [by apply confined_step_once|]. intros [|];
    [|apply confined_ret].
  apply confined_bind; [by apply confined_prepare|]. intros stmt'.
  apply confined_while_step; [done | done |]. intros row acc.
  apply confined_ret.
Qed.

Lemma confined_feature_row names table proj row vs :
  confined engine_or_registry extraction_error
    (feature_row E names table proj row vs).
Proof.
  unfold feature_row.
  apply confined_bind.
  - apply confined_of_result. intros e He.
    by apply parseGpkgGeom_errors in He as [->|[what ->]].
  - intros featureWkb. destruct (readFeatures E _ _ _);
      [by apply confined_throw|].
    apply confined_bind; [|intros; apply confined_ret].
    apply confined_of_result. intros e He.
    by apply setProperties_errors in He as [-> _].
Qed.

Lemma confined_process_table db proj table data :
  confined engine_or_registry extraction_error
    (process_table E db proj table data).
Proof.
  unfold process_table, proj_get.
  apply confined_bind.
  { apply confined_bind; [by apply confined_tell|]. intros _.
    apply confined_ret. }
  intros [|]; simpl; [|by apply confined_throw].
  apply confined_bind; [by apply confined_prepare|]. intros stmt.
  apply confined_bind; [|intros; apply confined_ret].
  apply confined_while_step; [done | done |]. intros row acc.
  apply confined_feature_row.
Qed.

Lemma confined_process_tables db proj tables data :
  confined engine_or_registry extraction_error
    (process_tables E db proj tables data).
Proof.
  revert data. induction tables as [|table rest IH]; intros data; simpl.
  - apply confined_ret.
  - apply confined_bind; [apply confined_process_table | done].
Qed.

Lemma confined_processGpkgData name bytes sqlWasm proj :
  confined engine_or_registry extraction_error
    (processGpkgData E name bytes sqlWasm proj).
Proof.
  unfold processGpkgData.
  apply confined_bind; [apply confined_extract_catalog|].
  intros [db tables].
  apply confined_bind; [apply confined_extract_styles|]. intros slds.
  apply confined_bind; [apply confined_process_tables|]. intros data.
  apply confined_ret.
Qed.

(** X6. Whatever the package, [processGpkgData] calls only the engine it
    was handed and the projection registry: it makes no fetch, writes
    nothing on the console and leaves [promiseSqlWasmLoaded] alone.  When
    it throws, the error is the catalog extraction error, the unknown
    source projection error, the invalid envelope flag error, a run-time
    TypeError or an error of the engine or the decoder, and nothing else. *)
Theorem processGpkgData_confined name bytes sqlWasm proj w :
  ∃ r evs,
    processGpkgData E name bytes sqlWasm proj w = (r, extend w evs) ∧
    Forall engine_or_registry evs ∧
    ∀ e, r = inl e → extraction_error e.
Proof.
  destruct (confined_processGpkgData name bytes sqlWasm proj)
    as (r & evs & Hrun & Hevs & Herr).
  exists r, evs. rewrite (Hrun w). by repeat split.
Qed.

End Confinement.

(** ** What a load delivers, throws and fetches *)

Section Outcomes.

Variable E : environment.

Lemma read_source_reading (gpkgSource : source) :
  read_source gpkgSource =
  match reading gpkgSource with
  | Pending => Pending
  | Fulfilled bytes => Fulfilled bytes
  | Rejected cause => Rejected (ReadFailed cause)
  end.
Proof. reflexivity. Qed.

Lemma readRawGpkg_calls (input : gpkg_source) (w : world) :
  snd (readRawGpkg E input w) = extend w (requests input).
Proof.
  destruct input as [blob name|url|href|shown]; simpl.
  - by rewrite extend_nil.
  - by destruct (fetch E url) as [|resp|reason]; [|destruct (ok resp)|].
  - by destruct (fetch E href) as [|resp|reason]; [|destruct (ok resp)|].
  - by rewrite extend_nil.
Qed.

(** X7. The outcome of [readRawGpkg], case by case.  It delivers the
    bytes that [bytes()] yields on the Blob or on the ok response, or those
    [arrayBuffer()] yields when there is no [bytes] method.  It is pending
    while the fetch or that read is pending.  It rejects in four ways only:
    with the input-kind error, on an input that is no string, URL or Blob;
    with the very reason of the fetch, unwrapped, when the fetch itself
    rejects; with the source-unreachable error on a response that is not
    ok; and with the read error, whose message ends with the cause, when
    the read of the Blob or of the response body rejects. *)
Theorem readRawGpkg_outcome (input : gpkg_source) (w : world) :
  match fst (readRawGpkg E input w) with
  | Fulfilled bytes =>
      ∃ src, source_of E input = Some src ∧ reading src = Fulfilled bytes
  | Pending =>
      (∃ url, url_of input = Some url ∧ fetch E url = Pending) ∨
      (∃ src, source_of E input = Some src ∧ reading src = Pending)
  | Rejected e =>
      (e = InvalidInputKind ∧ ∃ shown, input = InOther shown) ∨
      (∃ url reason,
         url_of input = Some url ∧ fetch E url = Rejected reason ∧
         e = External reason) ∨
      (∃ url resp,
         url_of input = Some url ∧ fetch E url = Fulfilled resp ∧
         ok resp = false ∧
         e = SourceUnreachable url (status resp) (statusText resp)) ∨
      (∃ src cause,
         source_of E input = Some src ∧ reading src = Rejected cause ∧
         e = ReadFailed cause ∧
         message e =
           "Requested GPKG file could not be loaded." +:+ nl +:+ cause)
  end.
Proof.
  assert (∀ src, source_of E input = Some src →
            match read_source src with
            | Fulfilled bytes =>
                ∃ src, source_of E input = Some src ∧
                       reading src = Fulfilled bytes
            | Pending =>
                (∃ url, url_of input = Some url ∧ fetch E url = Pending) ∨
                (∃ src, source_of E input = Some src ∧ reading src = Pending)
            | Rejected e =>
                (e = InvalidInputKind ∧ ∃ shown, input = InOther shown) ∨
                (∃ url reason,
                   url_of input = Some url ∧ fetch E url = Rejected reason ∧
                   e = External reason) ∨
                (∃ url resp,
                   url_of input = Some url ∧ fetch E url = Fulfilled resp ∧
                   ok resp = false ∧
                   e = SourceUnreachable url (status resp) (statusText resp)) ∨
                (∃ src cause,
                   source_of E input = Some src ∧
                   reading src = Rejected cause ∧
                   e = ReadFailed cause ∧
                   message e =
                     "Requested GPKG file could not be loaded." +:+ nl +:+
                     cause)
            end) as Hread.
  { intros src Hsrc. rewrite read_source_reading.
    destruct (reading src) as [|bytes|cause] eqn:Hreading.
    - right. by exists src.
    - by exists src.
    - do 3 right. by exists src, cause. }
  destruct input as [blob name|url|href|shown]; simpl.
  - by apply Hread.
  - simpl in Hread. destruct (fetch E url) as [|resp|reason] eqn:Hfetch.
    + left. by exists url.
    + destruct (ok resp) eqn:Hok; [by apply Hread|].
      right; right; left. by exists url, resp.
    + right; left. by exists url, reason.
  - simpl in Hread. destruct (fetch E href) as [|resp|reason] eqn:Hfetch.
    + left. by exists href.
    + destruct (ok resp) eqn:Hok; [by apply Hread|].
      right; right; left. by exists href, resp.
    + right; left. by exists href, reason.
  - left. split; [done | by exists shown].
Qed.

Lemma readRawGpkg_never_synchronous (input : gpkg_source) (w : world) e :
  fst (readRawGpkg E input w) = Rejected e → ¬ synchronous_error e.
Proof.
  assert (∀ src, read_source src = Rejected e → ¬ synchronous_error e)
    as Hread.
  { intros src. rewrite read_source_reading.
    destruct (reading src); intros [= <-]. by intros []. }
  destruct input as [blob name|url|href|shown]; simpl.
  - apply Hread.
  - destruct (fetch E url) as [|resp|reason]; [done| |].
    + destruct (ok resp); [apply Hread|]. intros [= <-]. by intros [].
    + intros [= <-]. by intros [].
  - destruct (fetch E href) as [|resp|reason]; [done| |].
    + destruct (ok resp); [apply Hread|]. intros [= <-]. by intros [].
    + intros [= <-]. by intros [].
  - intros [= <-]. by intros [].
Qed.

(** X8. The two errors [loadGpkg] throws are never delivered through the
    promise, and it throws nothing else.  A promise it returns rejects
    with the engine-load error (the engine promise being rejected), with
    the very rejection of [readRawGpkg], or with an error thrown by
    [processGpkgData]. *)
Theorem loadGpkg_errors gpkgFile proj w :
  (∀ e, fst (loadGpkg E gpkgFile proj w) = inl e → synchronous_error e) ∧
  (∀ e,
     fst (loadGpkg E gpkgFile proj w) = inr (Rejected e) →
     ¬ synchronous_error e ∧
     ((∃ reason,
         promiseSqlWasmLoaded w = Some (Rejected reason) ∧
         e = WasmLoadFailed reason) ∨
      fst (readRawGpkg E gpkgFile (emit (EvProjGet proj) w)) = Rejected e ∨
      extraction_error e)).
Proof.
  destruct (promiseSqlWasmLoaded w) as [promise|] eqn:Hsome.
  - destruct (ol_proj_get E proj) eqn:Hreg.
    + rewrite (loadGpkg_started E _ _ _ promise Hsome Hreg).
      split; [discriminate|]. intros e. simpl.
      destruct (readRawGpkg E gpkgFile _) as [read w1] eqn:Hread. simpl.
      destruct promise as [|sqlWasm|reason], read as [|bytes|reason'];
        simpl; try discriminate.
      * destruct (confined_processGpkgData E (gpkgFileName gpkgFile) bytes
                    sqlWasm proj) as (r & evs & Hrun & _ & Herr).
        rewrite (Hrun w1).
        destruct r as [e'|loaded]; [|discriminate]. intros [= <-].
        specialize (Herr e' eq_refl).
        split; [|by right; right]. destruct e'; simpl in *; tauto.
      * intros [= <-]. split; [|by right; left].
        eapply (readRawGpkg_never_synchronous gpkgFile). by rewrite Hread.
      * intros [= <-]. split; [by intros [] | left; by eexists].
      * intros [= <-]. split; [by intros [] | left; by eexists].
    + rewrite (loadGpkg_unregistered E _ _ _ promise Hsome Hreg).
      split; [by intros e [= <-] | discriminate].
  - unfold loadGpkg. rewrite Hsome. split; [by intros e [= <-] | discriminate].
Qed.

(** X9. A call of [loadGpkg] that throws issues no fetch.  A call that
    returns a promise issues exactly one fetch, of the given URL, when
    called on a string or a URL object, and none when called on a Blob or
    on anything else, whatever happens afterwards: nothing is fetched
    twice. *)
Theorem loadGpkg_fetches gpkgFile proj w :
  filter is_fetch (calls_since w (snd (loadGpkg E gpkgFile proj w))) =
  match fst (loadGpkg E gpkgFile proj w) with
  | inl _ => []
  | inr _ => requests gpkgFile
  end.
Proof.
  assert (∀ evs, Forall engine_or_registry evs → filter is_fetch evs = [])
    as Hquiet.
  { intros evs Hevs. induction Hevs as [|ev evs Hev _ IH]; [done|].
    rewrite filter_cons, IH. by destruct ev. }
  assert (filter is_fetch (requests gpkgFile) = requests gpkgFile) as Hreq.
  { by destruct gpkgFile. }
  destruct (promiseSqlWasmLoaded w) as [promise|] eqn:Hsome.
  - destruct (ol_proj_get E proj) eqn:Hreg.
    + rewrite (loadGpkg_started E _ _ _ promise Hsome Hreg).
      rewrite (surjective_pairing (readRawGpkg E gpkgFile _)).
      rewrite readRawGpkg_calls. simpl.
      set (read := fst (readRawGpkg E gpkgFile (emit (EvProjGet proj) w))).
      assert (∃ evs,
                snd (then_ (allSettled promise read)
                       (on_settled E gpkgFile proj)
                       (extend (emit (EvProjGet proj) w)
                          (requests gpkgFile))) =
                extend (extend (emit (EvProjGet proj) w) (requests gpkgFile))
                  evs ∧
                Forall engine_or_registry evs) as (evs & -> & Hevs).
      { destruct promise as [|sqlWasm|reason], read as [|bytes|reason'];
          simpl; try (exists []; by rewrite extend_nil).
        destruct (confined_processGpkgData E (gpkgFileName gpkgFile) bytes
                    sqlWasm proj) as (r & evs & Hrun & Hevs & _).
        rewrite (Hrun _). exists evs. by destruct r. }
      rewrite emit_extend, !extend_extend, calls_since_extend.
      rewrite !filter_app, Hreq, (Hquiet evs Hevs). simpl.
      by rewrite app_nil_r.
    + rewrite (loadGpkg_unregistered E _ _ _ promise Hsome Hreg). simpl.
      by rewrite emit_extend, calls_since_extend.
  - unfold loadGpkg. rewrite Hsome. simpl.
    by rewrite <- (extend_nil w) at 2; rewrite calls_since_extend.
Qed.

End Outcomes.

(** ** Loops over rows *)



Section Rows.

Variable E : environment.





End Rows.



(** ** The catalog reader and the styles: failures and the empty package *)

Lemma toString_method_errors v e :
  toString_method v = inl e →
  e = RuntimeTypeError "Cannot read properties of null or undefined" ∧
  (v = JNull ∨ v = JUndefined).
Proof. destruct v; intros [= <-]; auto. Qed.

Lemma catalog_rows_lacking_srs remaining failure acc :
  Exists lacks_srs remaining →
  ∃ n : nat,
    (1 ≤ n ≤ length remaining)%nat ∧
    runs (while_step catalog_sql catalog_row remaining failure acc)
         (inl (RuntimeTypeError
                 "Cannot read properties of null or undefined"))
         (replicate n (EvStep catalog_sql)).
Proof.
  intros Hex. revert acc.
  induction remaining as [|row rest IH]; intros acc; [by inversion Hex|].
  destruct (toString_method (at_index row 1)) as [e|srs] eqn:Hsrs.
  - apply toString_method_errors in Hsrs as Herr. destruct Herr as [-> _].
    exists 1%nat. split; [simpl; lia|]. simpl.
    change [EvStep catalog_sql] with ([EvStep catalog_sql] ++ []).
    eapply runs_bind; [apply runs_tell|].
    apply runs_bind_throw. unfold catalog_row. rewrite Hsrs.
    apply runs_bind_throw. apply runs_throw.
  - assert (Exists lacks_srs rest) as Hrest.
    { apply Exists_cons in Hex as [[Hnull|Hundef]|Hrest]; [| |done].
      - by rewrite Hnull in Hsrs.
      - by rewrite Hundef in Hsrs. }
    destruct (IH Hrest (acc ++ [{| table_name := at_index row 0;
                                  srs_id := srs;
                                  geometry_column_name := at_index row 2 |}]))
      as (n & Hn & Hrun).
    exists (S n). split; [simpl; lia|]. simpl.
    change (EvStep catalog_sql :: replicate n (EvStep catalog_sql))
      with ([EvStep catalog_sql] ++ [] ++ replicate n (EvStep catalog_sql)).
    eapply runs_bind; [apply runs_tell|].
    eapply runs_bind; [|exact Hrun].
    unfold catalog_row. rewrite Hsrs.
    change (runs (mret (acc ++ [{| table_name := at_index row 0;
                                   srs_id := srs;
                                   geometry_column_name := at_index row 2 |}]))
              (inr (acc ++ [{| table_name := at_index row 0;
                               srs_id := srs;
                               geometry_column_name := at_index row 2 |}]))
              []).
    apply runs_ret.
Qed.

Section Failures.

Variable E : environment.

(** X12. A failure of the engine while the package is opened or the
    catalog query prepared is thrown as the catalog extraction error, whose
    cause is the engine's error; nothing is called after the failing
    call. *)
Theorem processGpkgData_catalog_failure name bytes sqlWasm proj w :
  (∀ shown,
     sqlWasm bytes = inl shown →
     processGpkgData E name bytes sqlWasm proj w =
       (inl (CatalogExtractionFailed shown), extend w [EvOpen])) ∧
  (∀ db shown,
     sqlWasm bytes = inr db → db catalog_sql = inl shown →
     processGpkgData E name bytes sqlWasm proj w =
       (inl (CatalogExtractionFailed shown),
        extend w [EvOpen; EvPrepare catalog_sql])).
Proof.
  split.
  - intros shown Hopen.
    unfold processGpkgData, extract_catalog, try_catch, open_and_list.
    unfold mbind, M_bind, tell. rewrite Hopen. reflexivity.
  - intros db shown Hopen Hprep.
    unfold processGpkgData, extract_catalog, try_catch, open_and_list, prepare.
    unfold mbind, M_bind, tell. rewrite Hopen. simpl. rewrite Hprep. simpl.
    unfold extend, emit. simpl. by rewrite <- app_assoc.
Qed.

(** X13. One catalog row whose srs id is NULL makes the whole package
    unloadable: the load fails with the catalog extraction error caused by
    a TypeError, after at most as many steps as the catalog has rows, and
    neither the styles nor any table are looked at. *)
Theorem processGpkgData_null_srs name bytes sqlWasm proj w db stmt :
  sqlWasm bytes = inr db →
  db catalog_sql = inr stmt →
  Exists lacks_srs (rows stmt) →
  ∃ n : nat,
    (1 ≤ n ≤ length (rows stmt))%nat ∧
    processGpkgData E name bytes sqlWasm proj w =
      (inl (CatalogExtractionFailed
              "TypeError: Cannot read properties of null or undefined"),
       extend w (EvOpen :: EvPrepare catalog_sql ::
                 replicate n (EvStep catalog_sql))).
Proof.
  intros Hopen Hprep Hex.
  destruct (catalog_rows_lacking_srs (rows stmt) (failure stmt) [] Hex)
    as (n & Hn & Hrun).
  exists n. split; [done|].
  unfold processGpkgData, extract_catalog, try_catch, open_and_list, prepare.
  unfold mbind, M_bind, tell. rewrite Hopen. simpl. rewrite Hprep. simpl.
  rewrite Hrun. simpl. unfold extend, emit, throw. simpl.
  by rewrite <- !app_assoc.
Qed.

(** X14. When the contents list [layer_styles] but the query on that
    table fails, the load fails with the engine's own error, not wrapped,
    and no feature table is looked at, however sound the tables are. *)
Theorem processGpkgData_broken_styles
    name bytes sqlWasm proj w db tables w0 probe shown :
  extract_catalog bytes sqlWasm w = (inr (db, tables), w0) →
  db probe_sql = inr probe →
  rows probe ≠ [] →
  db styles_sql = inl shown →
  processGpkgData E name bytes sqlWasm proj w =
    (inl (External shown),
     extend w0 [EvPrepare probe_sql; EvStep probe_sql; EvPrepare styles_sql]).
Proof.
  intros Hcat Hprobe Hfound Hstyles.
  unfold processGpkgData. unfold mbind at 1, M_bind at 1. rewrite Hcat.
  cbn iota beta.
  unfold extract_styles, prepare, step_once. unfold mbind, M_bind, tell.
  rewrite Hprobe. simpl.
  destruct (rows probe) as [|row rest]; [done|]. simpl.
  rewrite Hstyles. simpl. unfold extend, emit. simpl.
  by rewrite <- !app_assoc.
Qed.

(** X15. A package without feature tables loads: the feature-collection
    mapping is empty, the styles are what the styles give, and the engine
    is asked nothing after them. *)
Theorem processGpkgData_no_feature_tables
    name bytes sqlWasm proj w db stmt slds w1 :
  sqlWasm bytes = inr db →
  db catalog_sql = inr stmt →
  rows stmt = [] →
  failure stmt = None →
  extract_styles db
    (extend w [EvOpen; EvPrepare catalog_sql; EvStep catalog_sql]) =
    (inr slds, w1) →
  processGpkgData E name bytes sqlWasm proj w = (inr (∅, slds), w1).
Proof.
  intros Hopen Hprep Hrows Hnone Hstyles.
  unfold processGpkgData, extract_catalog, try_catch, open_and_list, prepare.
  unfold mbind at 1 2 3 4 5 6, M_bind at 1 2 3 4 5 6, tell.
  rewrite Hopen. simpl. rewrite Hprep. simpl. rewrite Hrows, Hnone. simpl.
  unfold mbind, M_bind, tell. simpl.
  replace (emit (EvStep catalog_sql)
             (emit (EvPrepare catalog_sql) (emit EvOpen w)))
    with (extend w [EvOpen; EvPrepare catalog_sql; EvStep catalog_sql]).
  - by rewrite Hstyles.
  - unfold extend, emit. simpl. by rewrite <- !app_assoc.
Qed.

End Failures.

Lemma processGpkgData_catalog_failure_witness :
  processGpkgData (sample_env sample_db) "broken.gpkg" sample_bytes
    (λ _, inl "file is not a database") "EPSG:3857" fresh_world =
  (inl (CatalogExtractionFailed "file is not a database"),
   extend fresh_world [EvOpen]).
Proof.
  destruct (processGpkgData_catalog_failure (sample_env sample_db)
              "broken.gpkg" sample_bytes (λ _, inl "file is not a database")
              "EPSG:3857" fresh_world) as [Hopen _].
  apply Hopen. reflexivity.
Defined.

Lemma processGpkgData_null_srs_witness :
  ∃ n : nat,
    (1 ≤ n ≤ 3)%nat ∧
    processGpkgData (sample_env null_srs_db) "roads.gpkg" sample_bytes
      (sample_engine null_srs_db) "EPSG:3857" fresh_world =
    (inl (CatalogExtractionFailed
            "TypeError: Cannot read properties of null or undefined"),
     extend fresh_world (EvOpen :: EvPrepare catalog_sql ::
                         replicate n (EvStep catalog_sql))).
Proof.
  apply (processGpkgData_null_srs (sample_env null_srs_db) "roads.gpkg"
           sample_bytes (sample_engine null_srs_db) "EPSG:3857" fresh_world
           null_srs_db
           {| columns := ["table_name"; "srs_id"; "column_name"];
              rows := [[JString "roads"; JNumber 4326; JString "geom"];
                       [JString "buildings"; JNull; JString "geom"];
                       [JString "rivers"; JNumber 4326; JString "geom"]];
              failure := None |});
    [reflexivity | reflexivity |].
  apply Exists_cons_tl, Exists_cons_hd. by left.
Defined.

Lemma processGpkgData_broken_styles_witness :
  let catalogued :=
    snd (extract_catalog sample_bytes (sample_engine broken_styles_db)
           fresh_world) in
  processGpkgData (sample_env broken_styles_db) "roads.gpkg" sample_bytes
    (sample_engine broken_styles_db) "EPSG:3857" fresh_world =
  (inl (External "no such table: layer_styles"),
   extend catalogued
     [EvPrepare probe_sql; EvStep probe_sql; EvPrepare styles_sql]).
Proof.
  intros catalogued.
  apply (processGpkgData_broken_styles (sample_env broken_styles_db)
           "roads.gpkg" sample_bytes (sample_engine broken_styles_db)
           "EPSG:3857" fresh_world broken_styles_db
           [roads_table] catalogued
           {| columns := ["table_name"];
              rows := [[JString "layer_styles"]];
              failure := None |}
           "no such table: layer_styles");
    [reflexivity | reflexivity | discriminate | reflexivity].
Defined.

Lemma processGpkgData_no_feature_tables_witness :
  fst (processGpkgData (sample_env empty_db) "empty.gpkg" sample_bytes
         (sample_engine empty_db) "EPSG:3857" fresh_world) =
  inr (∅, ∅).
Proof.
  rewrite (processGpkgData_no_feature_tables (sample_env empty_db)
             "empty.gpkg" sample_bytes (sample_engine empty_db) "EPSG:3857"
             fresh_world empty_db
             {| columns := ["table_name"; "srs_id"; "column_name"];
                rows := [];
                failure := None |}
             ∅
             (extend fresh_world
                [EvOpen; EvPrepare catalog_sql; EvStep catalog_sql;
                 EvPrepare probe_sql; EvStep probe_sql]));
    reflexivity.
Defined.

(** ** Attributes and table names *)





(** A table with an attribute column named [geometry] beside its geometry
    column [geom]: a truthy value in it makes [setProperties] throw, a
    falsy one replaces the decoded geometry.  A geometry column itself
    named [geometry] is deleted from the attributes first and does no
    harm. *)
Example row_feature_geometry_attribute :
  let E := sample_env sample_db in
  let named :=
    {| table_name := JString "roads";
       srs_id := "4326";
       geometry_column_name := JString "geometry" |} in
  row_feature E ["fid"; "geom"; "geometry"] roads_table "EPSG:3857"
    [JNumber 1; JBytes sample_cell; JString "POINT (0 0)"] =
    inl (RuntimeTypeError "target.addEventListener is not a function") ∧
  row_feature E ["fid"; "geom"; "geometry"] roads_table "EPSG:3857"
    [JNumber 1; JBytes sample_cell; JNull] =
    inr {| feature_geometry := Overwritten JNull;
           feature_properties :=
             {[ "fid" := JNumber 1; "geometry" := JNull ]} |} ∧
  row_feature E ["fid"; "geometry"] named "EPSG:3857"
    [JNumber 1; JBytes sample_cell] =
    inr {| feature_geometry :=
             Decoded {| wkb := [x01; x01; x00; x00; x00];
                        dataProjection := "EPSG:4326";
                        featureProjection := "EPSG:3857" |};
           feature_properties := {[ "fid" := JNumber 1 ]} |}.
Proof. by vm_compute. Qed.



Section TableNames.

Variable E : environment.

(** X17. Of several catalog rows with the same table name the last one
    decides: after a successful load the collection under that name is the
    one made for the last such row, with its projection and without its
    geometry column, whatever the earlier rows of that name declared. *)
Theorem process_tables_last_wins db proj pre table post data0 w data w' :
  process_tables E db proj (pre ++ table :: post) data0 w = (inr data, w') →
  table_key table ∉ table_key <$> post →
  ∃ vs,
    data !! table_key table = Some vs ∧
    source_properties vs !! "origProjection" =
      Some ("EPSG:" +:+ srs_id table) ∧
    Forall (λ f, feature_properties f !! geometry_key table = None)
      (features vs).
Proof.
  intros Hrun Hlast. rewrite process_tables_app in Hrun.
  destruct (process_tables E db proj pre data0 w) as [[e|data1] w1];
    [discriminate|].
  simpl in Hrun. unfold mbind, M_bind in Hrun.
  destruct (process_table E db proj table data1 w1) as [[e|data2] w2]
    eqn:Htable; [discriminate|].
  apply process_table_inv in Htable as (_ & vs & -> & Hprops & Hfeatures).
  exists vs. rewrite (process_tables_untouched E _ _ _ _ _ _ _ _ Hrun Hlast).
  split; [apply lookup_insert_eq | done].
Qed.

End TableNames.

Lemma process_tables_last_wins_witness :
  let E := sample_env sample_db in
  let again :=
    {| table_name := JString "roads";
       srs_id := "3857";
       geometry_column_name := JString "geom" |} in
  ∃ data vs,
    fst (process_tables E sample_db "EPSG:3857" [roads_table; again] ∅
           fresh_world) = inr data ∧
    data !! "roads" = Some vs ∧
    source_properties vs !! "origProjection" = Some "EPSG:3857".
Proof.
  intros E again.
  destruct (process_tables E sample_db "EPSG:3857" [roads_table; again] ∅
              fresh_world) as [[e|data] w'] eqn:Hrun;
    [by vm_compute in Hrun|].
  destruct (process_tables_last_wins E sample_db "EPSG:3857" [roads_table]
              again [] ∅ fresh_world data w' Hrun)
    as (vs & Hvs & Hproj & _); [by apply not_elem_of_nil|].
  by exists data, vs.
Defined.

(** ** The example page *)

Lemma sample_enumerate_keys (data : gmap string ol_source_Vector) t :
  t ∈ sample_enumerate data ↔ is_Some (data !! t).
Proof.
  unfold sample_enumerate. rewrite list_elem_of_fmap. split.
  - intros ([k vs] & -> & Hin). apply elem_of_map_to_list in Hin. by eexists.
  - intros [vs Hvs]. exists (t, vs). split; [done|].
    by apply elem_of_map_to_list.
Qed.

Section PageProperties.

Variable enumerate : gmap string ol_source_Vector → list string.
Variable getFeatures : ol_source_Vector → list feature.
Variable attribute_names : feature → list string.

Hypothesis enumerate_keys :
  ∀ data t, t ∈ enumerate data ↔ is_Some (data !! t).
Hypothesis getFeatures_all : ∀ source, getFeatures source ≡ₚ features source.

Lemma getFeatures_nil source : getFeatures source = [] ↔ features source = [].
Proof.
  split; intros Hnil.
  - apply Permutation_nil_r. by rewrite <- Hnil, getFeatures_all.
  - apply Permutation_nil_r. by rewrite <- Hnil, getFeatures_all.
Qed.

Lemma tables_text_outcome data remaining tablesText :
  (∀ t, t ∈ remaining → is_Some (data !! t)) →
  ((∃ t vs, t ∈ remaining ∧ data !! t = Some vs ∧ features vs = []) →
   tables_text getFeatures attribute_names data remaining tablesText =
     inl (RuntimeTypeError "Cannot read properties of undefined")) ∧
  ((∀ t vs, t ∈ remaining → data !! t = Some vs → features vs ≠ []) →
   ∃ text, tables_text getFeatures attribute_names data remaining tablesText =
             inr text).
Proof.
  revert tablesText.
  induction remaining as [|table rest IH]; intros tablesText Hkeys.
  - split; [by intros (t & vs & Hin & _); inversion Hin | by eexists].
  - destruct (Hkeys table) as [source Hsource]; [by left|].
    simpl. rewrite Hsource.
    destruct (getFeatures source) as [|first others] eqn:Hget.
    + split; [done|]. intros Hfull.
      apply getFeatures_nil in Hget. destruct (Hfull table source); by try left.
    + assert (features source ≠ []) as Hsome.
      { intros Hnil. apply getFeatures_nil in Hnil. by rewrite Hnil in Hget. }
      match goal with
      | |- context [tables_text _ _ _ rest ?text] =>
          destruct (IH text) as [IHthrow IHfine]
      end.
      { intros t Hin. apply Hkeys. by right. }
      split.
      * intros (t & vs & Hin & Hvs & Hnil). apply IHthrow.
        apply elem_of_cons in Hin as [->|Hin]; [|by exists t, vs].
        rewrite Hsource in Hvs. injection Hvs as <-. done.
      * intros Hfull. apply IHfine. intros t vs Hin. apply Hfull. by right.
Qed.

(** X18. [displayGpkgContents] throws a TypeError as soon as one of the
    loaded tables has no feature, and then writes nothing on the page;
    when every table has a feature it appends one report, and the note on
    styles with two console lines exactly when the style mapping is not
    empty. *)
Theorem displayGpkgContents_outcome data slds :
  ((∃ t vs, data !! t = Some vs ∧ features vs = []) →
   displayGpkgContents enumerate getFeatures attribute_names data slds =
     (Some (RuntimeTypeError "Cannot read properties of undefined"), [])) ∧
  ((∀ t vs, data !! t = Some vs → features vs ≠ []) →
   ∃ text,
     displayGpkgContents enumerate getFeatures attribute_names data slds =
       (None,
        PageReport (text +:+ "</ul>") ::
        if decide (size slds = 0%nat) then []
        else [PageConsoleLog styles_console_text;
              PageConsoleLogStyles slds;
              PageReport styles_note])).
Proof.
  destruct (tables_text_outcome data (enumerate data) tables_header)
    as [Hthrow Hfine].
  { intros t. apply enumerate_keys. }
  unfold displayGpkgContents. split.
  - intros (t & vs & Hvs & Hnil). rewrite Hthrow; [done|].
    exists t, vs. split; [|done]. apply enumerate_keys. by eexists.
  - intros Hfull. destruct Hfine as [text ->]; [|by exists text].
    intros t vs _. apply Hfull.
Qed.

(** X19. What the example page does with a load.  If a loaded table has
    no feature the page reports the elapsed time, then alerts the
    TypeError, and adds no layer to the map, not even for the tables that
    have features.  If every table has a feature it alerts nothing and
    adds one layer per table, in the order of enumeration.  A rejected
    load gives one alert with the error and nothing else. *)
Theorem show_load_outcome secs data slds :
  let timing :=
    PageReport
      ("<p>...loading, data extraction and reprojection completed in " +:+
       secs +:+ " seconds.</p>") in
  ((∃ t vs, data !! t = Some vs ∧ features vs = []) →
   show_load enumerate getFeatures attribute_names secs
     (Fulfilled (data, slds)) =
   [timing;
    PageAlert (alert_head +:+
               "TypeError: Cannot read properties of undefined")]) ∧
  ((∀ t vs, data !! t = Some vs → features vs ≠ []) →
   ∃ shown,
     show_load enumerate getFeatures attribute_names secs
       (Fulfilled (data, slds)) =
     timing :: shown ++
     ((λ t, PageAddLayer t (data !! t)) <$> enumerate data) ∧
     Forall (λ ev, ∃ html, ev = PageReport html ∨ ev = PageConsoleLog html ∨
                           ev = PageConsoleLogStyles slds) shown) ∧
  (∀ e,
     show_load enumerate getFeatures attribute_names secs (Rejected e) =
     [PageAlert (alert_head +:+ error_to_string e)]).
Proof.
  intros timing.
  destruct (tables_text_outcome data (enumerate data) tables_header)
    as [Hthrow Hfine].
  { intros t. apply enumerate_keys. }
  split; [|split; [|done]].
  - intros (t & vs & Hvs & Hnil).
    unfold show_load, on_loaded, displayGpkgContents.
    rewrite Hthrow; [done|].
    exists t, vs. split; [|done]. apply enumerate_keys. by eexists.
  - intros Hfull. destruct Hfine as [text Hshown].
    { intros t vs _. apply Hfull. }
    unfold show_load, on_loaded, displayGpkgContents. rewrite Hshown.
    eexists. split; [done|].
    constructor; [by eexists; left|].
    destruct (decide (size slds = 0%nat)); [done|].
    constructor; [exists styles_console_text; by right; left|].
    constructor; [exists ""; by right; right|].
    constructor; [exists styles_note; by left | done].
Qed.

End PageProperties.

Lemma show_load_outcome_witness :
  show_load sample_enumerate features (λ _, []) "0.25"
    (Fulfilled vacant_loaded) =
  [PageReport
     ("<p>...loading, data extraction and reprojection completed in " +:+
      "0.25" +:+ " seconds.</p>");
   PageAlert (alert_head +:+
              "TypeError: Cannot read properties of undefined")].
Proof.
  destruct (show_load_outcome sample_enumerate features (λ _, [])
              sample_enumerate_keys (λ _, reflexivity _) "0.25"
              vacant_loaded.1 vacant_loaded.2) as [Hvacant _].
  apply Hvacant.
  exists "plots", (table_source (buildings_table "27700") []).
  split; [|reflexivity]. apply lookup_insert_eq.
Defined.

Lemma displayGpkgContents_outcome_witness :
  displayGpkgContents sample_enumerate features (λ _, [])
    vacant_loaded.1 vacant_loaded.2 =
  (Some (RuntimeTypeError "Cannot read properties of undefined"), []).
Proof.
  destruct (displayGpkgContents_outcome sample_enumerate features (λ _, [])
              sample_enumerate_keys (λ _, reflexivity _)
              vacant_loaded.1 vacant_loaded.2) as [Hvacant _].
  apply Hvacant.
  exists "plots", (table_source (buildings_table "27700") []).
  split; [|reflexivity]. apply lookup_insert_eq.
Defined.

Lemma loadGpkg_errors_witness :
  let E := sample_env sample_db in
  fst (loadGpkg E (InString "missing.gpkg") "EPSG:3857"
         (ready_world sample_db)) =
    inr (Rejected (SourceUnreachable "missing.gpkg" 404 "Not Found")) ∧
  ¬ synchronous_error (SourceUnreachable "missing.gpkg" 404 "Not Found").
Proof.
  intros E. split; [reflexivity|].
  destruct (loadGpkg_errors E (InString "missing.gpkg") "EPSG:3857"
              (ready_world sample_db)) as [_ Hrejected].
  destruct (Hrejected (SourceUnreachable "missing.gpkg" 404 "Not Found"))
    as [Hnot _]; [reflexivity | exact Hnot].
Defined.
